(** * ConvBlock (laia/models/htr/conv_block.py): construction, forward pass
      and device relocation.

    The block is a configuration-driven list of library layers.  What the
    file decides itself, and what is embedded here, is
    - the validation and normalisation of the configuration,
    - which layers are registered, in which order, with which arguments
      (in particular the padding of the convolution),
    - the bookkeeping of the per-sample sizes of a [PaddedTensor],
    - the relocation of the pool divisor on [cpu()] and [cuda()].

    The numerical library is external.  The kernels of the layers
    ([module_call]) and the verdict of the layer constructors on their
    arguments ([layer_ok]) are parameters of the development.  The tensors
    of the size bookkeeping are modelled concretely: shape, entries and
    device, with the elementwise division the library performs on them. *)

From Stdlib Require Import ZArith QArith List String Lia Lqa.
From stdpp Require Import base option list gmap strings.

Local Open Scope string_scope.
Local Open Scope Z_scope.

(** ** Errors *)

(** The exceptions the embedded code can raise.  The three assertion
    constructors stand for Python's [AssertionError] with the message of the
    respective [assert] statement. *)
Inductive error : Type :=
| DropoutAssertion          (* 'Dropout rate must be lower than 1.0' *)
| SizesNotMatrix            (* 'PaddedTensor.sizes must be a matrix' *)
| SizesColumns (n : nat)    (* 'PaddedTensor.sizes must have 2 colums: Height
                               and Width, %d columns given instead.' *)
| TypeError                 (* subscript of a value that is no sequence *)
| IndexError                (* dimension or index out of range *)
| DeviceMismatch            (* operands of a tensor operation on two devices *)
| NonFiniteQuotient         (* division by a zero entry: the library returns
                               inf or nan, which are no numbers of the model *)
| ShapeOutsideModel         (* operand shapes not covered by [tensor_div] *)
| OverflowError             (* an integer that does not fit a 64-bit entry *)
| CudaUnavailable           (* relocation to an accelerator that is absent *)
| NoSuchObject              (* dangling reference; Python cannot produce one *)
| LibraryError.             (* a layer constructor or a layer kernel raised *)

Inductive result (A : Type) : Type :=
| Ok (a : A)
| Err (e : error).
Arguments Ok {A} a.
Arguments Err {A} e.

#[global] Instance result_ret : MRet result := fun _ a => Ok a.
#[global] Instance result_bind : MBind result := fun _ _ f m =>
  match m with
  | Ok a => f a
  | Err e => Err e
  end.
#[global] Instance result_fmap : FMap result := fun _ _ f m =>
  match m with
  | Ok a => Ok (f a)
  | Err e => Err e
  end.

(** Python's [assert c, msg]. *)
Definition assert_ (c : bool) (e : error) : result unit :=
  if c then Ok tt else Err e.

(** ** Configuration values *)

(** An argument that is either a number or a [(list, tuple)] of two numbers:
    [kernel_size], [dilation] and [poolsize]. *)
Inductive IntOrPair : Type :=
| Scalar (n : Z)
| Pair (a b : Z).

(** [isinstance(v, (list, tuple))] *)
Definition is_sequence (v : IntOrPair) : bool :=
  match v with
  | Scalar _ => false
  | Pair _ _ => true
  end.

(** Truth value of an optional argument: [None] and the number zero are
    false, a two-element sequence is true. *)
Definition truthy (v : option IntOrPair) : bool :=
  match v with
  | None => false
  | Some (Scalar n) => negb (n =? 0)
  | Some (Pair _ _) => true
  end.

(** [v[i]] *)
Definition getitem (v : IntOrPair) (i : nat) : result Z :=
  match v with
  | Scalar _ => Err TypeError
  | Pair a b =>
      match i with
      | O => Ok a
      | S O => Ok b
      | _ => Err IndexError
      end
  end.

(** [if not isinstance(v, (list, tuple)): v = (v, v)] *)
Definition broadcast_pair (v : IntOrPair) : IntOrPair :=
  match v with
  | Scalar n => Pair n n
  | Pair _ _ => v
  end.

(** [if poolsize and not isinstance(poolsize, (list, tuple)):
       poolsize = (poolsize, poolsize)] *)
Definition broadcast_poolsize (v : option IntOrPair) : option IntOrPair :=
  match v with
  | Some p => if truthy v && negb (is_sequence p) then Some (broadcast_pair p) else v
  | None => None
  end.

Definition Qlt_bool (x y : Q) : bool :=
  (Qnum x * Zpos (Qden y) <? Qnum y * Zpos (Qden x))%Z.

(** The dropout rate is a Python float.  Only its truth value and its order
    against [0.0] and [1.0] are inspected: a finite float is taken as the
    rational it denotes (the comparisons are exact), and the infinities and
    the not-a-number are values of their own. *)
Inductive PyFloat : Type :=
| Finite (q : Q)
| PosInf
| NegInf
| NaN.

(** [x < y]: false as soon as either side is not a number. *)
Definition float_lt (x y : PyFloat) : bool :=
  match x, y with
  | NaN, _ | _, NaN => false
  | Finite a, Finite b => Qlt_bool a b
  | Finite _, PosInf => true
  | Finite _, NegInf => false
  | PosInf, _ => false
  | NegInf, NegInf => false
  | NegInf, _ => true
  end.

(** [x <= y] *)
Definition float_le (x y : PyFloat) : bool :=
  match x, y with
  | NaN, _ | _, NaN => false
  | Finite a, Finite b => Qle_bool a b
  | Finite _, PosInf => true
  | Finite _, NegInf => false
  | PosInf, PosInf => true
  | PosInf, _ => false
  | NegInf, _ => true
  end.

(** Truth value of a float: it differs from zero (the infinities and the
    not-a-number do). *)
Definition float_truthy (x : PyFloat) : bool :=
  match x with
  | Finite q => negb (Qeq_bool q 0)
  | _ => true
  end.

(** ** Devices and integer tensors *)

Inductive Device : Type :=
| Cpu
| Cuda (index : nat).

#[global] Instance Device_eq_dec : EqDecision Device.
Proof. solve_decision. Defined.

(** A tensor of the library: shape, the entries in row-major order, and the
    device holding it. *)
Record TorchTensor (A : Type) : Type := mkTensor {
  shape : list nat;
  elems : list A;
  device : Device
}.
Arguments mkTensor {A} shape elems device.
Arguments shape {A} t.
Arguments elems {A} t.
Arguments device {A} t.

(** A [torch.LongTensor]: the entries are integers. *)
Abbreviation LongTensor := (TorchTensor Z).
Abbreviation mkLong := (@mkTensor Z).

(** The sizes matrix of a padded batch.  It is an integer tensor when it
    enters the first block and a float tensor once a block has divided it;
    the entries of either are taken as rationals. *)
Abbreviation SizesTensor := (TorchTensor Q).

(** Signed 64-bit range of the entries of a [torch.LongTensor]. *)
Definition in_int64 (z : Z) : bool := (- 2 ^ 63 <=? z) && (z <? 2 ^ 63).

(** The tensor [torch.LongTensor((a, b))] denotes: a vector of two entries,
    on the CPU. *)
Definition LongTensor_of_pair (a b : Z) : LongTensor :=
  mkLong [2%nat] [a; b] Cpu.

(** [torch.LongTensor((a, b))]: the constructor raises when an entry does not
    fit 64 bits. *)
Definition LongTensor_new (a b : Z) : result LongTensor :=
  if in_int64 a && in_int64 b then Ok (LongTensor_of_pair a b)
  else Err OverflowError.

(** [t.dim()] *)
Definition dim {A : Type} (t : TorchTensor A) : nat := length (shape t).

(** [t.size(i)] *)
Definition size {A : Type} (t : TorchTensor A) (i : nat) : result nat :=
  match shape t !! i with
  | Some n => Ok n
  | None => Err IndexError
  end.

(** Row [i] of a matrix with two columns. *)
Definition row {A : Type} (t : TorchTensor A) (i : nat) : option (A * A) :=
  match elems t !! (2 * i)%nat, elems t !! (2 * i + 1)%nat with
  | Some h, Some w => Some (h, w)
  | _, _ => None
  end.

(** The quotient of an entry by an integer entry under the operator [/] of
    the library.  The operator is true division: the quotient is not rounded
    to an integer (7 / 2 is 3.5).  It is kept as the exact rational, in
    lowest terms; a float holds it exactly when it is representable, as 3.5
    is, and is the nearest float otherwise.  The theorems use the quotient
    at representable values and through its order only. *)
Definition true_divide (x : Q) (d : Z) : Q := Qred (x / inject_Z d).

(** [a / b] for a sizes tensor [a] whose last dimension is [k] and an integer
    vector [b] of [k] entries.  [b] is broadcast along the leading dimensions
    of [a], the result is a float tensor of the shape of [a].  Operands on
    different devices are an error of the library. *)
Definition tensor_div (a : SizesTensor) (b : LongTensor) : result SizesTensor :=
  if negb (bool_decide (device a = device b)) then Err DeviceMismatch
  else
    match shape b with
    | [k] =>
        if negb (bool_decide (last (shape a) = Some k)) then Err ShapeOutsideModel
        else if (0 <? length (elems a))%nat && existsb (Z.eqb 0) (elems b)
        then Err NonFiniteQuotient
        else Ok (mkTensor (shape a)
                   (imap (fun j x => true_divide x (nth (j mod k) (elems b) 0%Z))
                      (elems a))
                   (device a))
    | _ => Err ShapeOutsideModel
    end.

(** [t.cpu()] *)
Definition LongTensor_cpu (t : LongTensor) : LongTensor :=
  mkLong (shape t) (elems t) Cpu.

(** [t.cuda()]: to the current accelerator, when there is one. *)
Definition LongTensor_cuda (current : option nat) (t : LongTensor) : result LongTensor :=
  match current with
  | Some i => Ok (mkLong (shape t) (elems t) (Cuda i))
  | None => Err CudaUnavailable
  end.

(** ** Layers and the block *)

(** The layer objects the constructor builds, with the arguments it passes. *)
Inductive Layer : Type :=
| Dropout (p : PyFloat) (inplace : bool)
| Conv2d (in_channels out_channels : Z) (kernel_size : IntOrPair)
         (padding : Z * Z) (dilation : IntOrPair)
| BatchNorm2d (num_features : Z)
| Activation (constructor : string) (inplace : bool)
| MaxPool2d (kernel_size : option IntOrPair).

(** [OrderedDict.__setitem__]: a new key goes to the end, a present key keeps
    its place and takes the new value. *)
Fixpoint odict_set {V : Type} (k : string) (v : V) (d : list (string * V))
  : list (string * V) :=
  match d with
  | [] => [(k, v)]
  | (k', v') :: d' =>
      if String.eqb k k' then (k, v) :: d' else (k', v') :: odict_set k v d'
  end.

Fixpoint odict_get {V : Type} (k : string) (d : list (string * V)) : option V :=
  match d with
  | [] => None
  | (k', v') :: d' => if String.eqb k k' then Some v' else odict_get k d'
  end.

(** The state of a [ConvBlock] object: the attribute [_poolsize], the
    registered sub-modules in registration order, and the device on which
    the parameters of the sub-modules live. *)
Record ConvBlock : Type := mkConvBlock {
  _poolsize : option LongTensor;
  _modules : list (string * Layer);
  param_device : Device
}.

(** [self.add_module(name, module)] *)
Definition add_module (name : string) (m : Layer) (self : ConvBlock) : ConvBlock :=
  mkConvBlock (_poolsize self) (odict_set name m (_modules self)) (param_device self).

(** The arguments of [ConvBlock.__init__]. *)
Record Config : Type := mkConfig {
  in_channels : Z;
  out_channels : Z;
  kernel_size : IntOrPair;
  dilation : IntOrPair;
  activation : string;
  poolsize : option IntOrPair;
  dropout : PyFloat;
  batchnorm : bool;
  inplace : bool
}.

(** The expression assigned to [self._poolsize]. *)
Definition make_poolsize (poolsize : option IntOrPair) : result (option LongTensor) :=
  match poolsize with
  | Some p =>
      if truthy poolsize then
        p0 ← getitem p 0;
        if p0 >? 0 then
          p1 ← getitem p 1;
          if p1 >? 0 then
            p0' ← getitem p 0;
            if p0' >? 1 then Some <$> LongTensor_new p0 p1
            else
              p1' ← getitem p 1;
              if p1' >? 1 then Some <$> LongTensor_new p0 p1 else Ok None
          else Ok None
        else Ok None
      else Ok None
  | None => Ok None
  end.

(** A call of a layer constructor of the library ([nn.Dropout],
    [nn.Conv2d], [nn.BatchNorm2d], the activation, [nn.MaxPool2d]):
    [layer_ok m] tells whether the library accepts the arguments of [m]; if
    it does not, the constructor raises. *)
Definition construct (layer_ok : Layer -> bool) (m : Layer) : result Layer :=
  if layer_ok m then Ok m else Err LibraryError.

(** [ConvBlock.__init__] *)
Definition ConvBlock_init (layer_ok : Layer -> bool) (c : Config) : result ConvBlock :=
  assert_ (negb (float_truthy (dropout c)) || float_lt (dropout c) (Finite 1))
    DropoutAssertion;;
  let kernel_size := broadcast_pair (kernel_size c) in
  let dilation := broadcast_pair (dilation c) in
  let poolsize := broadcast_poolsize (poolsize c) in
  ps ← make_poolsize poolsize;
  let self := mkConvBlock ps [] Cpu in
  (* First, add dropout module (optionally) *)
  self ←
    (if float_truthy (dropout c) && float_lt (Finite 0) (dropout c)
     then m ← construct layer_ok (Dropout (dropout c) (inplace c));
          Ok (add_module "dropout" m self)
     else Ok self);
  (* Add Conv2d layer *)
  k0 ← getitem kernel_size 0;
  d0 ← getitem dilation 0;
  k1 ← getitem kernel_size 1;
  d1 ← getitem dilation 1;
  let padding := ((k0 - 1) / 2 * d0, (k1 - 1) / 2 * d1) in
  m ← construct layer_ok
        (Conv2d (in_channels c) (out_channels c) kernel_size padding dilation);
  let self := add_module "conv" m self in
  (* Add Batch normalization *)
  self ←
    (if batchnorm c
     then m ← construct layer_ok (BatchNorm2d (out_channels c));
          Ok (add_module "batchnorm" m self)
     else Ok self);
  self ←
    (if inplace c
     then m ← construct layer_ok (Activation (activation c) true);
          Ok (add_module "activation" m self)
     else m ← construct layer_ok (Activation (activation c) false);
          Ok (add_module "activation" m self));
  (* Add maxpool layer *)
  self ←
    match _poolsize self with
    | Some _ => m ← construct layer_ok (MaxPool2d poolsize);
                Ok (add_module "pooling" m self)
    | None => Ok self
    end;
  Ok self.

(** ** Computations that call layers *)

(** A computation that calls layers: the names of the layers called, in call
    order, and the outcome. *)
Definition Traced (A : Type) : Type := (list string * result A)%type.

#[global] Instance Traced_ret : MRet Traced := fun _ a => ([], Ok a).
#[global] Instance Traced_bind : MBind Traced := fun _ _ f m =>
  match m with
  | (log, Ok a) => let (log', r) := f a in ((log ++ log')%list, r)
  | (log, Err e) => (log, Err e)
  end.

(** A step that calls no layer. *)
Definition lift {A : Type} (r : result A) : Traced A := ([], r).

(** Modelled from the spec: [laia.data.PaddedTensor], the padded batch: a
    data tensor and the matrix of the valid sizes of the samples. *)
Record PaddedTensor (Tensor : Type) : Type := mkPadded {
  data : Tensor;
  sizes : SizesTensor
}.
Arguments mkPadded {Tensor} data sizes.
Arguments data {Tensor} p.
Arguments sizes {Tensor} p.

(** What [forward] takes and returns: a bare tensor or a [PaddedTensor]. *)
Inductive Value (Tensor : Type) : Type :=
| Bare (x : Tensor)
| Padded (x : PaddedTensor Tensor).
Arguments Bare {Tensor} x.
Arguments Padded {Tensor} x.

(** [isinstance(x, PaddedTensor)] *)
Definition is_padded {Tensor : Type} (x : Value Tensor) : bool :=
  match x with
  | Bare _ => false
  | Padded _ => true
  end.

(** References to block objects, and the store holding their state. *)
Abbreviation loc := positive.
Abbreviation Heap := (gmap positive ConvBlock).

(** A method that reads and updates objects and may raise; the store
    survives the exception. *)
Definition HeapM (A : Type) : Type := Heap -> result A * Heap.

#[global] Instance HeapM_ret : MRet HeapM := fun _ a h => (Ok a, h).
#[global] Instance HeapM_bind : MBind HeapM := fun _ _ f m h =>
  match m h with
  | (Ok a, h') => f a h'
  | (Err e, h') => (Err e, h')
  end.

Definition load (l : loc) : HeapM ConvBlock := fun h =>
  match h !! l with
  | Some b => (Ok b, h)
  | None => (Err NoSuchObject, h)
  end.

Definition store (l : loc) (b : ConvBlock) : HeapM unit := fun h =>
  (Ok tt, <[l := b]> h).

Definition raise {A : Type} (e : error) : HeapM A := fun h => (Err e, h).

Section ConvBlock.

(** The tensors of the numerical library and the kernel of each layer:
    [module_call dev m x] is what the call [m(x)] returns within the forward
    pass at hand, for a layer whose parameters live on [dev], or [None] when
    the library raises.  What a kernel does besides (a random mask drawn, an
    input overwritten in place) stays inside the library. *)
Variable Tensor : Type.
Variable module_call : Device -> Layer -> Tensor -> option Tensor.

(** The current accelerator of the process, if there is one. *)
Variable cuda_current : option nat.

(** [x = module(x)] *)
Definition call (dev : Device) (name : string) (m : Layer) (x : Tensor)
  : Traced Tensor :=
  ([name], match module_call dev m x with
           | Some y => Ok y
           | None => Err LibraryError
           end).

(** [for module in self._modules.values(): x = module(x)] *)
Fixpoint call_modules (dev : Device) (ms : list (string * Layer)) (x : Tensor)
  : Traced Tensor :=
  match ms with
  | [] => mret x
  | (name, m) :: ms' => y ← call dev name m x; call_modules dev ms' y
  end.

(** [ConvBlock.forward] *)
Definition forward (self : ConvBlock) (x : Value Tensor) : Traced (Value Tensor) :=
  match x with
  | Padded p =>
      let xs := sizes p in
      let x := data p in
      lift (assert_ (dim xs =? 2)%nat SizesNotMatrix);;
      cols ← lift (size xs 1);
      lift (assert_ (cols =? 2)%nat (SizesColumns cols));;
      (* Forward the input through all the modules in the conv block *)
      x ← call_modules (param_device self) (_modules self) x;
      xs ← match _poolsize self with
           | Some ps => lift (tensor_div xs ps)
           | None => mret xs
           end;
      mret (Padded (mkPadded x xs))
  | Bare x =>
      x ← call_modules (param_device self) (_modules self) x;
      mret (Bare x)
  end.

(** [nn.Module.cpu]: the parameters of the sub-modules go to the CPU. *)
Definition Module_cpu (self : loc) : HeapM loc :=
  b ← load self;
  store self (mkConvBlock (_poolsize b) (_modules b) Cpu);;
  mret self.

(** [nn.Module.cuda]: the parameters of the sub-modules go to the current
    accelerator. *)
Definition Module_cuda (self : loc) : HeapM loc :=
  b ← load self;
  match cuda_current with
  | Some i => store self (mkConvBlock (_poolsize b) (_modules b) (Cuda i));;
              mret self
  | None => raise CudaUnavailable
  end.

(** [ConvBlock.cpu] *)
Definition cpu (self : loc) : HeapM loc :=
  Module_cpu self;;
  b ← load self;
  match _poolsize b with
  | Some ps =>
      store self (mkConvBlock (Some (LongTensor_cpu ps)) (_modules b) (param_device b))
  | None => mret tt
  end;;
  mret self.

(** [ConvBlock.cuda] *)
Definition cuda (self : loc) : HeapM loc :=
  Module_cuda self;;
  b ← load self;
  match _poolsize b with
  | Some ps =>
      match LongTensor_cuda cuda_current ps with
      | Ok ps' => store self (mkConvBlock (Some ps') (_modules b) (param_device b))
      | Err e => raise e
      end
  | None => mret tt
  end;;
  mret self.

End ConvBlock.

Arguments call {Tensor} module_call dev name m x.
Arguments call_modules {Tensor} module_call dev ms x.
Arguments forward {Tensor} module_call self x.

(** ** What the specification says the constructor builds *)

(** A scalar argument stands for the symmetric (height, width) pair. *)
Definition as_pair (v : IntOrPair) : Z * Z :=
  match v with
  | Scalar n => (n, n)
  | Pair a b => (a, b)
  end.

(** The suppression rule: both dimensions positive, one of them above 1. *)
Definition pool_rule (ph pw : Z) : Prop := 0 < ph /\ 0 < pw /\ (1 < ph \/ 1 < pw).

Definition pool_ruleb (ph pw : Z) : bool :=
  (0 <? ph) && (0 <? pw) && ((1 <? ph) || (1 <? pw)).

(** The pool size that is honoured, if any. *)
Definition spec_pool (c : Config) : option (Z * Z) :=
  match poolsize c with
  | Some p => let '(ph, pw) := as_pair p in
              if pool_ruleb ph pw then Some (ph, pw) else None
  | None => None
  end.

(** Padding of the convolution, per axis. *)
Definition spec_padding (k d : Z * Z) : Z * Z :=
  ((fst k - 1) / 2 * fst d, (snd k - 1) / 2 * snd d).

Definition pair_value (p : Z * Z) : IntOrPair := Pair (fst p) (snd p).

(** The layer sequence: each layer whose condition holds, in the fixed
    order dropout, convolution, batch normalisation, activation, pooling. *)
Definition spec_layers (c : Config) : list (string * Layer) :=
  (if float_lt (Finite 0) (dropout c)
   then [("dropout", Dropout (dropout c) (inplace c))] else []) ++
  [("conv", Conv2d (in_channels c) (out_channels c)
              (pair_value (as_pair (kernel_size c)))
              (spec_padding (as_pair (kernel_size c)) (as_pair (dilation c)))
              (pair_value (as_pair (dilation c))))] ++
  (if batchnorm c then [("batchnorm", BatchNorm2d (out_channels c))] else []) ++
  [("activation", Activation (activation c) (inplace c))] ++
  (match spec_pool c with
   | Some p => [("pooling", MaxPool2d (Some (pair_value p)))]
   | None => []
   end).

Definition spec_block (c : Config) : ConvBlock :=
  mkConvBlock (uncurry LongTensor_of_pair <$> spec_pool c) (spec_layers c) Cpu.

(** The library lets the construction through: the honoured pool size fits
    the entries of a [torch.LongTensor], and the constructor of every layer
    of the sequence accepts its arguments. *)
Definition pool_fits (c : Config) : bool :=
  match spec_pool c with
  | Some (ph, pw) => in_int64 ph && in_int64 pw
  | None => true
  end.

Definition layers_accepted (layer_ok : Layer -> bool) (c : Config) : bool :=
  forallb (fun nl => layer_ok (snd nl)) (spec_layers c).

(** The layers applied one after the other to the running tensor, in the
    order of the list; the first kernel that raises ends the pass. *)
Definition apply_in_order {Tensor : Type}
    (module_call : Device -> Layer -> Tensor -> option Tensor)
    (dev : Device) (layers : list Layer) (x : Tensor) : result Tensor :=
  foldl (fun acc m =>
           x ← acc;
           match module_call dev m x with
           | Some y => Ok y
           | None => Err LibraryError
           end)
        (Ok x) layers.

(** A rate within [0, 1). *)
Definition valid_rate (x : PyFloat) : Prop :=
  float_le (Finite 0) x = true /\ float_lt x (Finite 1) = true.

(** The two assertion failures of [forward]. *)
Definition is_shape_contract_error (e : error) : bool :=
  match e with
  | SizesNotMatrix | SizesColumns _ => true
  | _ => false
  end.

(** Same kind of value: both bare, or both padded. *)
Definition same_kind {Tensor : Type} (x y : Value Tensor) : Prop :=
  is_padded x = is_padded y.

(** The pool divisor of a block, when there is one, is a vector of two
    positive entries. *)
Definition divisor_ok (ps : LongTensor) : Prop :=
  shape ps = [2%nat] /\ exists ph pw, elems ps = [ph; pw] /\ 0 < ph /\ 0 < pw.

Definition block_ok (b : ConvBlock) : Prop :=
  forall ps, _poolsize b = Some ps -> divisor_ok ps.

(** The state of a block after its parameters and its pool divisor went
    to device [d]. *)
Definition relocated (d : Device) (b : ConvBlock) : ConvBlock :=
  mkConvBlock ((fun ps => mkLong (shape ps) (elems ps) d) <$> _poolsize b)
    (_modules b) d.

(** A block serves the padded batches of device [d]: on a batch whose sizes
    matrix lives on [d] the forward pass raises no device mismatch, and it
    returns a padded batch whenever the layers themselves do not raise. *)
Definition serves_device {Tensor : Type}
    (module_call : Device -> Layer -> Tensor -> option Tensor)
    (b : ConvBlock) (d : Device) : Prop :=
  forall (p : PaddedTensor Tensor) (N : nat),
    shape (sizes p) = [N; 2%nat] -> device (sizes p) = d ->
    snd (forward module_call b (Padded p)) <> Err DeviceMismatch /\
    forall log y,
      call_modules module_call (param_device b) (_modules b) (data p) = (log, Ok y) ->
      exists xs, forward module_call b (Padded p) = (log, Ok (Padded (mkPadded y xs))).

(** The configuration with every scalar argument written as the symmetric
    pair it stands for. *)
Definition symmetric_config (c : Config) : Config :=
  mkConfig (in_channels c) (out_channels c)
    (pair_value (as_pair (kernel_size c))) (pair_value (as_pair (dilation c)))
    (activation c) ((fun v => pair_value (as_pair v)) <$> poolsize c)
    (dropout c) (batchnorm c) (inplace c).

(** The configuration with the pool size left out. *)
Definition without_pool (c : Config) : Config :=
  mkConfig (in_channels c) (out_channels c) (kernel_size c) (dilation c)
    (activation c) None (dropout c) (batchnorm c) (inplace c).

(** The pool divisor and the pooling layer of a block agree: either both
    are absent, or the divisor is the vector of the kernel size of the
    pooling layer, which passes the suppression rule, and it lives on the
    device of the parameters. *)
Definition coherent (b : ConvBlock) : Prop :=
  match _poolsize b with
  | Some ps =>
      device ps = param_device b /\
      exists ph pw,
        shape ps = [2%nat] /\ elems ps = [ph; pw] /\ pool_rule ph pw /\
        odict_get "pooling" (_modules b) = Some (MaxPool2d (Some (Pair ph pw)))
  | None => odict_get "pooling" (_modules b) = None
  end.

(** ** Sample inputs *)

(** A block with dropout, batch normalisation and 2x2 pooling. *)
Definition sample_config : Config :=
  mkConfig 1 16 (Scalar 3) (Scalar 1) "LeakyReLU" (Some (Scalar 2)) (Finite (1 # 2)) true false.

(** The same block without pooling: pool size (1, 1). *)
Definition sample_config_nopool : Config :=
  mkConfig 1 16 (Scalar 3) (Scalar 1) "LeakyReLU" (Some (Pair 1 1)) (Finite (1 # 2)) true false.

(** A negative dropout rate. *)
Definition negative_rate_config : Config :=
  mkConfig 1 16 (Scalar 3) (Scalar 1) "LeakyReLU" None (Finite (-1 # 2)) false false.

(** A library whose constructors accept every layer. *)
Definition accept_all : Layer -> bool := fun _ => true.

(** A library whose convolution constructor rejects a negative number of
    channels. *)
Definition reject_negative_channels : Layer -> bool :=
  fun m => match m with
           | Conv2d cin cout _ _ _ => (0 <=? cin) && (0 <=? cout)
           | _ => true
           end.

(** The sample block with a rate that is not a number. *)
Definition nan_rate_config : Config :=
  mkConfig 1 16 (Scalar 3) (Scalar 1) "LeakyReLU" None NaN false false.

(** A stand-in for the kernels that records the calls: a tensor is the list
    of the layers it went through. *)
Definition layer_kind (m : Layer) : string :=
  match m with
  | Dropout _ _ => "Dropout"
  | Conv2d _ _ _ _ _ => "Conv2d"
  | BatchNorm2d _ => "BatchNorm2d"
  | Activation _ _ => "Activation"
  | MaxPool2d _ => "MaxPool2d"
  end.

Definition tracing_call : Device -> Layer -> list string -> option (list string) :=
  fun _ m x => Some (x ++ [layer_kind m])%list.

(** A stand-in for the numerical library: tensors are numbered, and every
    layer returns the next number. *)
Definition sample_call : Device -> Layer -> nat -> option nat :=
  fun _ _ x => Some (S x).

(** Two samples of valid sizes 7x9 and 4x5, on the CPU. *)
Definition sample_batch : PaddedTensor nat :=
  mkPadded 0%nat (mkTensor [2%nat; 2%nat] [7; 9; 4; 5]%Q Cpu).

(** The sample batch with its sizes matrix on the first accelerator. *)
Definition sample_batch_cuda : PaddedTensor nat :=
  mkPadded 0%nat (mkTensor [2%nat; 2%nat] [7; 9; 4; 5]%Q (Cuda 0)).

(** A sizes tensor with three columns. *)
Definition sample_batch_3cols : PaddedTensor nat :=
  mkPadded 0%nat (mkTensor [2%nat; 3%nat] [7; 9; 1; 4; 5; 1]%Q Cpu).

(** A stand-in library whose pooling kernel raises. *)
Definition failing_pool_call : Device -> Layer -> nat -> option nat :=
  fun _ m x => match m with
               | MaxPool2d _ => None
               | _ => Some (S x)
               end.

(** A store holding the sample block. *)
Definition sample_heap : gmap positive ConvBlock :=
  {[ 1%positive := spec_block sample_config ]}.

(** ** Order on rationals and floats *)

Lemma Qlt_bool_iff (x y : Q) : Qlt_bool x y = true <-> (x < y)%Q.
Proof. unfold Qlt_bool, Qlt. apply Z.ltb_lt. Qed.

Lemma Qlt_bool_false_iff (x y : Q) : Qlt_bool x y = false <-> (y <= x)%Q.
Proof. unfold Qlt_bool, Qle. rewrite Z.ltb_ge. reflexivity. Qed.

Lemma float_truthy_pos (x : PyFloat) :
  float_truthy x && float_lt (Finite 0) x = float_lt (Finite 0) x.
Proof.
  destruct x as [q| | |]; try reflexivity. cbn.
  destruct (Qlt_bool 0 q) eqn:E; [|apply andb_false_r].
  rewrite andb_true_r.
  destruct (Qeq_bool q 0) eqn:E0; [|reflexivity].
  apply Qlt_bool_iff in E. apply Qeq_bool_iff in E0.
  rewrite E0 in E. discriminate E.
Qed.

Lemma dropout_assert (x : PyFloat) :
  negb (float_truthy x) || float_lt x (Finite 1) = float_lt x (Finite 1).
Proof.
  destruct x as [q| | |]; try reflexivity. cbn.
  destruct (Qlt_bool q 1) eqn:E; [apply orb_true_r|].
  rewrite orb_false_r, negb_involutive.
  destruct (Qeq_bool q 0) eqn:E0; [|reflexivity].
  apply Qlt_bool_false_iff in E. apply Qeq_bool_iff in E0.
  rewrite E0 in E. exfalso. apply E. reflexivity.
Qed.

(** A rate that is not positive is below 1. *)
Lemma float_nonpos_below_one (x : PyFloat) :
  float_le x (Finite 0) = true -> float_lt x (Finite 1) = true.
Proof.
  destruct x as [q| | |]; try (discriminate || reflexivity). cbn.
  intros H. apply Qle_bool_iff in H. apply Qlt_bool_iff.
  apply Qle_lt_trans with (y := 0%Q); [exact H | reflexivity].
Qed.

Lemma float_nonpos_not_pos (x : PyFloat) :
  float_le x (Finite 0) = true -> float_lt (Finite 0) x = false.
Proof.
  destruct x as [q| | |]; try (discriminate || reflexivity). cbn.
  intros H. apply Qle_bool_iff in H. apply Qlt_bool_false_iff, H.
Qed.

(** ** The constructor *)

Lemma make_poolsize_spec (p : option IntOrPair) :
  make_poolsize (broadcast_poolsize p) =
  match p with
  | Some v => let '(ph, pw) := as_pair v in
              if pool_ruleb ph pw then Some <$> LongTensor_new ph pw else Ok None
  | None => Ok None
  end.
Proof.
  destruct p as [[n|a b]|]; cbn; [| |reflexivity].
  - unfold pool_ruleb. destruct (Z.eqb_spec n 0) as [->|Hn]; cbn; [reflexivity|].
    rewrite !Z.gtb_ltb.
    destruct (0 <? n); cbn; [|reflexivity].
    destruct (1 <? n); reflexivity.
  - unfold pool_ruleb. rewrite !Z.gtb_ltb.
    destruct (0 <? a); cbn; [|reflexivity].
    destruct (0 <? b); cbn; [|reflexivity].
    destruct (1 <? a); cbn; [reflexivity|].
    destruct (1 <? b); reflexivity.
Qed.

Lemma broadcast_poolsize_honoured (v : IntOrPair) (ph pw : Z) :
  as_pair v = (ph, pw) -> pool_ruleb ph pw = true ->
  broadcast_poolsize (Some v) = Some (Pair ph pw).
Proof.
  destruct v as [n|a b]; cbn; intros [= <- <-] H; [|reflexivity].
  destruct (Z.eqb_spec n 0) as [->|_]; [discriminate H|reflexivity].
Qed.

Lemma broadcast_pair_as_pair (v : IntOrPair) :
  broadcast_pair v = pair_value (as_pair v).
Proof. destruct v; reflexivity. Qed.

Ltac case_layers layer_ok :=
  repeat (cbn; match goal with
               | |- context [layer_ok ?m] => destruct (layer_ok m) eqn:?
               end);
  cbn; try reflexivity.

(** The constructor, outcome by outcome: the dropout assertion first, then
    the pool divisor, then the layer constructors. *)
Lemma init_spec (layer_ok : Layer -> bool) (c : Config) :
  ConvBlock_init layer_ok c =
  if float_lt (dropout c) (Finite 1) then
    if pool_fits c then
      if layers_accepted layer_ok c then Ok (spec_block c) else Err LibraryError
    else Err OverflowError
  else Err DropoutAssertion.
Proof.
  unfold ConvBlock_init. cbv zeta.
  rewrite dropout_assert, float_truthy_pos, make_poolsize_spec,
    !broadcast_pair_as_pair.
  unfold pool_fits, layers_accepted, spec_block, spec_layers, spec_pool,
    spec_padding, construct.
  destruct (float_lt (dropout c) (Finite 1)); [|reflexivity].
  generalize (float_lt (Finite 0) (dropout c)). intros pos.
  destruct (poolsize c) as [v|] eqn:Hp.
  - destruct (as_pair v) as [ph pw] eqn:Hv.
    destruct (pool_ruleb ph pw) eqn:Hr.
    + rewrite (broadcast_poolsize_honoured v ph pw Hv Hr).
      unfold LongTensor_new.
      destruct (in_int64 ph && in_int64 pw); [|reflexivity].
      change (pair_value (ph, pw)) with (Pair ph pw).
      destruct pos, (batchnorm c), (inplace c); case_layers layer_ok.
    + destruct pos, (batchnorm c), (inplace c); case_layers layer_ok.
  - destruct pos, (batchnorm c), (inplace c); case_layers layer_ok.
Qed.

Lemma init_accepts (layer_ok : Layer -> bool) (c : Config) :
  float_lt (dropout c) (Finite 1) = true -> pool_fits c = true ->
  layers_accepted layer_ok c = true ->
  ConvBlock_init layer_ok c = Ok (spec_block c).
Proof. intros H1 H2 H3. rewrite init_spec, H1, H2, H3. reflexivity. Qed.

Lemma init_rejects (layer_ok : Layer -> bool) (c : Config) :
  float_lt (dropout c) (Finite 1) = false ->
  ConvBlock_init layer_ok c = Err DropoutAssertion.
Proof. intros H. rewrite init_spec, H. reflexivity. Qed.

Lemma init_inv (layer_ok : Layer -> bool) (c : Config) (b : ConvBlock) :
  ConvBlock_init layer_ok c = Ok b ->
  float_lt (dropout c) (Finite 1) = true /\ pool_fits c = true /\
  layers_accepted layer_ok c = true /\ b = spec_block c.
Proof.
  rewrite init_spec.
  destruct (float_lt (dropout c) (Finite 1)); [|discriminate].
  destruct (pool_fits c); [|discriminate].
  destruct (layers_accepted layer_ok c); [|discriminate].
  intros [= <-]. auto.
Qed.

Lemma spec_block_ok (c : Config) : block_ok (spec_block c).
Proof.
  intros ps. unfold spec_block, spec_pool. cbn.
  destruct (poolsize c) as [v|]; [|discriminate].
  destruct (as_pair v) as [ph pw].
  destruct (pool_ruleb ph pw) eqn:Hr; [|discriminate].
  cbn. intros [= <-]. split; [reflexivity|].
  exists ph, pw. unfold pool_ruleb in Hr.
  apply andb_true_iff in Hr as [Hr _]. apply andb_true_iff in Hr as [H1 H2].
  apply Z.ltb_lt in H1, H2. auto.
Qed.

Lemma pool_ruleb_iff (ph pw : Z) : pool_ruleb ph pw = true <-> pool_rule ph pw.
Proof.
  unfold pool_ruleb, pool_rule.
  rewrite !andb_true_iff, orb_true_iff, !Z.ltb_lt. tauto.
Qed.

Lemma spec_layers_pooling (c : Config) :
  odict_get "pooling" (spec_layers c) =
  (fun p => MaxPool2d (Some (pair_value p))) <$> spec_pool c.
Proof.
  unfold spec_layers.
  destruct (float_lt (Finite 0) (dropout c)), (batchnorm c), (spec_pool c); reflexivity.
Qed.

Lemma spec_layers_conv (c : Config) :
  odict_get "conv" (spec_layers c) =
  Some (Conv2d (in_channels c) (out_channels c)
          (pair_value (as_pair (kernel_size c)))
          (spec_padding (as_pair (kernel_size c)) (as_pair (dilation c)))
          (pair_value (as_pair (dilation c)))).
Proof.
  unfold spec_layers. destruct (float_lt (Finite 0) (dropout c)); reflexivity.
Qed.

(** ** Tensors of the size bookkeeping *)

Lemma shape_check {A : Type} (t : TorchTensor A) :
  dim t = 2%nat /\ shape t !! 1%nat = Some 2%nat <-> exists N, shape t = [N; 2%nat].
Proof.
  unfold dim. split.
  - intros [Hd Hc]. destruct (shape t) as [|N [|k [|]]]; try discriminate Hd.
    cbn in Hc. injection Hc as ->. exists N. reflexivity.
  - intros [N ->]. split; reflexivity.
Qed.

Lemma classic_shape {A : Type} (t : TorchTensor A) :
  (exists N, shape t = [N; 2%nat]) \/ ~ (exists N, shape t = [N; 2%nat]).
Proof.
  destruct (shape t) as [|N [|k [|]]];
    try (right; intros [M H]; discriminate H).
  destruct (Nat.eq_dec k 2%nat) as [->|Hk].
  - left. exists N. reflexivity.
  - right. intros [M [= _ H]]. contradiction.
Qed.

Lemma even_index (i : nat) : ((2 * i) mod 2 = 0)%nat.
Proof. rewrite Nat.mul_comm. apply Nat.Div0.mod_mul. Qed.

Lemma odd_index (i : nat) : ((2 * i + 1) mod 2 = 1)%nat.
Proof. rewrite Nat.add_comm, (Nat.mul_comm 2 i), Nat.Div0.mod_add. reflexivity. Qed.



Lemma div_ok (a : SizesTensor) (b : LongTensor) (N : nat) (ph pw : Z) :
  device a = device b -> shape a = [N; 2%nat] ->
  shape b = [2%nat] -> elems b = [ph; pw] -> 0 < ph -> 0 < pw ->
  tensor_div a b =
  Ok (mkTensor [N; 2%nat]
        (imap (fun j x => true_divide x (nth (j mod 2) [ph; pw] 0)) (elems a))
        (device a)).
Proof.
  intros Hdev Ha Hb He Hph Hpw.
  assert (Hz : existsb (Z.eqb 0) [ph; pw] = false).
  { cbn [existsb]. destruct (Z.eqb_spec 0 ph); [lia|].
    destruct (Z.eqb_spec 0 pw); [lia|]. reflexivity. }
  unfold tensor_div. rewrite bool_decide_true by exact Hdev.
  rewrite Hb, Ha, He, Hz, andb_false_r.
  rewrite bool_decide_true by reflexivity. reflexivity.
Qed.

Lemma div_row (sh : list nat) (es : list Q) (d : Device) (ph pw : Z) (i : nat) :
  row (mkTensor sh (imap (fun j x => true_divide x (nth (j mod 2) [ph; pw] 0)) es) d) i =
  (fun hw => (true_divide (fst hw) ph, true_divide (snd hw) pw))
    <$> row (mkTensor sh es d) i.
Proof.
  unfold row. cbn [elems]. rewrite !list_lookup_imap.
  rewrite even_index, odd_index.
  destruct (es !! (2 * i)%nat), (es !! (2 * i + 1)%nat); reflexivity.
Qed.

Lemma div_mismatch (a : SizesTensor) (b : LongTensor) :
  device a <> device b -> tensor_div a b = Err DeviceMismatch.
Proof.
  intros H. unfold tensor_div. rewrite bool_decide_false by exact H.
  reflexivity.
Qed.

(** ** The forward pass *)

Section Forward.

Context {Tensor : Type}.
Variable module_call : Device -> Layer -> Tensor -> option Tensor.

Lemma call_modules_cons dev name m ms (x : Tensor) :
  call_modules module_call dev ((name, m) :: ms) x =
  match module_call dev m x with
  | Some y => let (log, r) := call_modules module_call dev ms y in (name :: log, r)
  | None => ([name], Err LibraryError)
  end.
Proof.
  cbn. destruct (module_call dev m x); [|reflexivity].
  destruct (call_modules module_call dev ms t); reflexivity.
Qed.

(** The layers called are an initial segment of the registered ones. *)
Lemma call_modules_prefix dev ms (x : Tensor) :
  fst (call_modules module_call dev ms x) `prefix_of` ms.*1.
Proof.
  revert x. induction ms as [|[name m] ms IH]; intros x.
  - apply prefix_nil.
  - rewrite call_modules_cons. destruct (module_call dev m x) as [y|].
    + specialize (IH y). destruct (call_modules module_call dev ms y) as [log r].
      cbn in *. apply prefix_cons, IH.
    + cbn. apply prefix_cons, prefix_nil.
Qed.

(** When no layer raises, every registered layer was called, in order. *)
Lemma call_modules_all dev ms (x y : Tensor) log :
  call_modules module_call dev ms x = (log, Ok y) -> log = ms.*1.
Proof.
  revert x log. induction ms as [|[name m] ms IH]; intros x log.
  - cbn. intros [= <- _]. reflexivity.
  - rewrite call_modules_cons. destruct (module_call dev m x) as [z|]; [|discriminate].
    destruct (call_modules module_call dev ms z) as [log' r] eqn:E.
    intros [= <- ->]. cbn. f_equal. eapply IH, E.
Qed.

Lemma forward_bare (b : ConvBlock) (x : Tensor) :
  forward module_call b (Bare x) =
  (fst (call_modules module_call (param_device b) (_modules b) x),
   Bare <$> snd (call_modules module_call (param_device b) (_modules b) x)).
Proof.
  cbn. destruct (call_modules _ _ _ x) as [log [y|e]]; cbn; [|reflexivity].
  rewrite app_nil_r. reflexivity.
Qed.

Lemma forward_padded (b : ConvBlock) (p : PaddedTensor Tensor) (N : nat) :
  shape (sizes p) = [N; 2%nat] ->
  forward module_call b (Padded p) =
  (fst (call_modules module_call (param_device b) (_modules b) (data p)),
   y ← snd (call_modules module_call (param_device b) (_modules b) (data p));
   xs ← match _poolsize b with
        | Some ps => tensor_div (sizes p) ps
        | None => Ok (sizes p)
        end;
   Ok (Padded (mkPadded y xs))).
Proof.
  intros Hs. unfold forward, dim, size. rewrite Hs. cbn.
  destruct (call_modules _ _ _ (data p)) as [log [y|e]]; cbn; [|reflexivity].
  destruct (_poolsize b) as [ps|]; cbn.
  - destruct (tensor_div (sizes p) ps); cbn; rewrite app_nil_r; reflexivity.
  - rewrite app_nil_r. reflexivity.
Qed.

Lemma forward_rejects (b : ConvBlock) (p : PaddedTensor Tensor) :
  ~ (exists N, shape (sizes p) = [N; 2%nat]) ->
  exists e, forward module_call b (Padded p) = ([], Err e) /\
            is_shape_contract_error e = true.
Proof.
  intros H. unfold forward, dim, size.
  destruct (shape (sizes p)) as [|N [|k [|]]]; cbn;
    try (exists SizesNotMatrix; split; reflexivity).
  destruct (Nat.eqb_spec k 2) as [->|Hk].
  - exfalso. apply H. exists N. reflexivity.
  - cbn. exists (SizesColumns k). split; reflexivity.
Qed.

(** Sizes of a padded result: each row divided by the pool divisor. *)
Lemma forward_pooled (b : ConvBlock) (p : PaddedTensor Tensor) (N : nat)
    (ps : LongTensor) (ph pw : Z) log y :
  _poolsize b = Some ps -> shape ps = [2%nat] -> elems ps = [ph; pw] ->
  0 < ph -> 0 < pw -> device (sizes p) = device ps ->
  shape (sizes p) = [N; 2%nat] ->
  call_modules module_call (param_device b) (_modules b) (data p) = (log, Ok y) ->
  exists xs,
    forward module_call b (Padded p) = (log, Ok (Padded (mkPadded y xs))) /\
    shape xs = [N; 2%nat] /\ device xs = device (sizes p) /\
    forall i, row xs i =
              (fun hw => (true_divide (fst hw) ph, true_divide (snd hw) pw))
              <$> row (sizes p) i.
Proof.
  intros Hps Hsh Hel Hph Hpw Hdev Hs Hcall.
  rewrite (forward_padded b p N Hs), Hcall, Hps.
  rewrite (div_ok (sizes p) ps N ph pw Hdev Hs Hsh Hel Hph Hpw).
  eexists. split; [reflexivity|]. repeat split.
  intros i. rewrite div_row. destruct (sizes p); reflexivity.
Qed.

End Forward.

Lemma div_error (a : SizesTensor) (b : LongTensor) (e : error) :
  tensor_div a b = Err e -> is_shape_contract_error e = false.
Proof.
  unfold tensor_div.
  destruct (negb (bool_decide (device a = device b))); [intros [= <-]; reflexivity|].
  destruct (shape b) as [|k [|]]; try (intros [= <-]; reflexivity).
  destruct (negb (bool_decide (last (shape a) = Some k))); [intros [= <-]; reflexivity|].
  destruct ((0 <? length (elems a))%nat && existsb (Z.eqb 0) (elems b));
    [intros [= <-]; reflexivity|discriminate].
Qed.

Section ForwardErrors.

Context {Tensor : Type}.
Variable module_call : Device -> Layer -> Tensor -> option Tensor.

(** A layer that raises does so with the library's own error. *)
Lemma call_modules_error dev ms (x : Tensor) e :
  snd (call_modules module_call dev ms x) = Err e -> e = LibraryError.
Proof.
  revert x. induction ms as [|[name m] ms IH]; intros x; [discriminate|].
  rewrite call_modules_cons. destruct (module_call dev m x) as [y|].
  - specialize (IH y). destruct (call_modules module_call dev ms y). exact IH.
  - intros [= <-]. reflexivity.
Qed.

(** Past the two assertions no shape-contract error is raised. *)
Lemma forward_accepts (b : ConvBlock) (p : PaddedTensor Tensor) (N : nat) e :
  shape (sizes p) = [N; 2%nat] ->
  snd (forward module_call b (Padded p)) = Err e ->
  is_shape_contract_error e = false.
Proof.
  intros Hs. rewrite (forward_padded module_call b p N Hs). cbn [snd].
  destruct (snd (call_modules _ _ _ (data p))) as [y|e'] eqn:E.
  - destruct (_poolsize b) as [ps|]; [|discriminate].
    destruct (tensor_div (sizes p) ps) as [xs|e'] eqn:D; [discriminate|].
    intros [= <-]. eapply div_error, D.
  - intros [= <-]. apply call_modules_error in E as ->. reflexivity.
Qed.

(** A value is returned only after every registered layer was called. *)
Lemma forward_ok_log (b : ConvBlock) (x out : Value Tensor) :
  snd (forward module_call b x) = Ok out ->
  fst (forward module_call b x) = (_modules b).*1.
Proof.
  destruct x as [x|p].
  - rewrite forward_bare. cbn [fst snd].
    destruct (call_modules _ _ _ x) as [log [y|e]] eqn:E; [|discriminate].
    intros _. eapply call_modules_all, E.
  - destruct (classic_shape (sizes p)) as [[N Hs]|Hs].
    + rewrite (forward_padded module_call b p N Hs). cbn [fst snd].
      destruct (call_modules _ _ _ (data p)) as [log [y|e]] eqn:E; [|discriminate].
      intros _. eapply call_modules_all, E.
    + destruct (forward_rejects module_call b p Hs) as (e & -> & _). discriminate.
Qed.

Lemma forward_log_prefix (b : ConvBlock) (x : Value Tensor) :
  fst (forward module_call b x) `prefix_of` (_modules b).*1.
Proof.
  destruct x as [x|p].
  - rewrite forward_bare. apply call_modules_prefix.
  - destruct (classic_shape (sizes p)) as [[N Hs]|Hs].
    + rewrite (forward_padded module_call b p N Hs). apply call_modules_prefix.
    + destruct (forward_rejects module_call b p Hs) as (e & -> & _).
      apply prefix_nil.
Qed.

End ForwardErrors.

(** ** Device relocation *)

Lemma cpu_spec (h : Heap) (l : loc) (b : ConvBlock) :
  h !! l = Some b -> cpu l h = (Ok l, <[l := relocated Cpu b]> h).
Proof.
  intros H. unfold cpu, Module_cpu, load, store, relocated.
  unfold mbind, mret, HeapM_bind, HeapM_ret. rewrite H, lookup_insert_eq.
  destruct (_poolsize b) as [ps|]; cbn [_poolsize _modules param_device LongTensor_cuda];
    [rewrite insert_insert_eq|]; reflexivity.
Qed.

Lemma cuda_spec (i : nat) (h : Heap) (l : loc) (b : ConvBlock) :
  h !! l = Some b -> cuda (Some i) l h = (Ok l, <[l := relocated (Cuda i) b]> h).
Proof.
  intros H. unfold cuda, Module_cuda, load, store, relocated.
  unfold mbind, mret, HeapM_bind, HeapM_ret. rewrite H, lookup_insert_eq.
  destruct (_poolsize b) as [ps|]; cbn [_poolsize _modules param_device LongTensor_cuda];
    [rewrite insert_insert_eq|]; reflexivity.
Qed.

(** Without an accelerator the base relocation raises, and nothing moved. *)
Lemma cuda_unavailable (h : Heap) (l : loc) (b : ConvBlock) :
  h !! l = Some b -> cuda None l h = (Err CudaUnavailable, h).
Proof.
  intros H. unfold cuda, Module_cuda, load, raise.
  unfold mbind, HeapM_bind. rewrite H. reflexivity.
Qed.

Lemma cuda_returns (cur : option nat) (h : Heap) (l v : loc) :
  fst (cuda cur l h) = Ok v -> v = l.
Proof.
  destruct (h !! l) as [b|] eqn:H.
  - destruct cur as [i|].
    + rewrite (cuda_spec i h l b H). intros [= <-]. reflexivity.
    + rewrite (cuda_unavailable h l b H). discriminate.
  - unfold cuda, Module_cuda, load. unfold mbind, HeapM_bind.
    rewrite H. discriminate.
Qed.

Lemma relocated_ok (d : Device) (b : ConvBlock) : block_ok b -> block_ok (relocated d b).
Proof.
  intros Hb ps. unfold relocated. cbn.
  destruct (_poolsize b) as [ps0|] eqn:E; [|discriminate].
  intros [= <-]. destruct (Hb ps0 E) as (Hsh & ph & pw & Hel & Hph & Hpw).
  split; [exact Hsh|]. exists ph, pw. auto.
Qed.

Section Relocation.

Context {Tensor : Type}.
Variable module_call : Device -> Layer -> Tensor -> option Tensor.

Lemma relocated_serves (d : Device) (b : ConvBlock) :
  block_ok b -> serves_device module_call (relocated d b) d.
Proof.
  intros Hb p N Hs Hd.
  assert (Hyp : forall log y,
    call_modules module_call (param_device (relocated d b))
      (_modules (relocated d b)) (data p) = (log, Ok y) ->
    exists xs, forward module_call (relocated d b) (Padded p)
               = (log, Ok (Padded (mkPadded y xs)))).
  { intros log y Hcall.
    destruct (_poolsize (relocated d b)) as [ps|] eqn:E.
    - destruct (relocated_ok d b Hb ps E) as (Hsh & ph & pw & Hel & Hph & Hpw).
      assert (Hdev : device (sizes p) = device ps).
      { unfold relocated in E. cbn in E.
        destruct (_poolsize b); [|discriminate]. injection E as <-.
        exact Hd. }
      destruct (forward_pooled module_call (relocated d b) p N ps ph pw log y
                  E Hsh Hel Hph Hpw Hdev Hs Hcall) as (xs & Hf & _).
      exists xs. exact Hf.
    - exists (sizes p).
      rewrite (forward_padded module_call _ p N Hs), Hcall, E. reflexivity. }
  split; [|exact Hyp].
  destruct (call_modules module_call (param_device (relocated d b))
              (_modules (relocated d b)) (data p)) as [log [y|e]] eqn:Hcall.
  - destruct (Hyp log y eq_refl) as (xs & ->). discriminate.
  - rewrite (forward_padded module_call _ p N Hs), Hcall. cbn.
    assert (He : e = LibraryError).
    { apply (call_modules_error module_call (param_device (relocated d b))
               (_modules (relocated d b)) (data p)).
      rewrite Hcall. reflexivity. }
    rewrite He. discriminate.
Qed.

(** A divisor left behind on another device makes the division raise. *)
Lemma forward_device_mismatch (b : ConvBlock) (p : PaddedTensor Tensor) (N : nat)
    (ps : LongTensor) log y :
  _poolsize b = Some ps -> device (sizes p) <> device ps ->
  shape (sizes p) = [N; 2%nat] ->
  call_modules module_call (param_device b) (_modules b) (data p) = (log, Ok y) ->
  forward module_call b (Padded p) = (log, Err DeviceMismatch).
Proof.
  intros Hps Hdev Hs Hcall.
  rewrite (forward_padded module_call b p N Hs), Hcall, Hps.
  rewrite (div_mismatch _ _ Hdev). reflexivity.
Qed.

End Relocation.

(** ** The layers of a constructed block, name by name *)

Lemma spec_layers_dropout (c : Config) :
  odict_get "dropout" (spec_layers c) =
  if float_lt (Finite 0) (dropout c)
  then Some (Dropout (dropout c) (inplace c)) else None.
Proof.
  unfold spec_layers.
  destruct (float_lt (Finite 0) (dropout c)), (batchnorm c), (spec_pool c); reflexivity.
Qed.

Lemma spec_layers_batchnorm (c : Config) :
  odict_get "batchnorm" (spec_layers c) =
  if batchnorm c then Some (BatchNorm2d (out_channels c)) else None.
Proof.
  unfold spec_layers.
  destruct (float_lt (Finite 0) (dropout c)), (batchnorm c), (spec_pool c); reflexivity.
Qed.

Lemma spec_layers_activation (c : Config) :
  odict_get "activation" (spec_layers c) =
  Some (Activation (activation c) (inplace c)).
Proof.
  unfold spec_layers.
  destruct (float_lt (Finite 0) (dropout c)), (batchnorm c); reflexivity.
Qed.

Lemma spec_pool_iff (c : Config) (ph pw : Z) :
  spec_pool c = Some (ph, pw) <->
  exists v, poolsize c = Some v /\ as_pair v = (ph, pw) /\ pool_rule ph pw.
Proof.
  unfold spec_pool. split.
  - destruct (poolsize c) as [v|]; [|discriminate].
    destruct (as_pair v) as [a b] eqn:Hv.
    destruct (pool_ruleb a b) eqn:Hr; [|discriminate].
    intros [= <- <-]. exists v. split; [reflexivity|]. split; [exact Hv|].
    apply pool_ruleb_iff, Hr.
  - intros (v & -> & -> & Hr). apply pool_ruleb_iff in Hr. rewrite Hr. reflexivity.
Qed.

Lemma spec_pool_none (c : Config) :
  spec_pool c = None <->
  forall v ph pw, poolsize c = Some v -> as_pair v = (ph, pw) -> ~ pool_rule ph pw.
Proof.
  split.
  - intros H v ph pw Hv Hp Hr.
    assert (spec_pool c = Some (ph, pw)) as E by (apply spec_pool_iff; eauto).
    rewrite H in E. discriminate E.
  - intros H. destruct (spec_pool c) as [[ph pw]|] eqn:E; [|reflexivity].
    apply spec_pool_iff in E as (v & Hv & Hp & Hr). destruct (H v ph pw Hv Hp Hr).
Qed.

(** The constructor of the convolution is among those that must accept. *)
Lemma layers_accepted_conv (layer_ok : Layer -> bool) (c : Config) :
  layers_accepted layer_ok c = true ->
  layer_ok (Conv2d (in_channels c) (out_channels c)
              (pair_value (as_pair (kernel_size c)))
              (spec_padding (as_pair (kernel_size c)) (as_pair (dilation c)))
              (pair_value (as_pair (dilation c)))) = true.
Proof.
  unfold layers_accepted, spec_layers. rewrite forallb_app. cbn.
  intros H. apply andb_true_iff in H as [_ H].
  apply andb_true_iff in H as [H _]. exact H.
Qed.

(** The failures of the constructor. *)
Lemma init_error (layer_ok : Layer -> bool) (c : Config) (e : error) :
  ConvBlock_init layer_ok c = Err e ->
  e = DropoutAssertion \/ e = OverflowError \/ e = LibraryError.
Proof.
  rewrite init_spec.
  destruct (float_lt (dropout c) (Finite 1)); [|intros [= <-]; auto].
  destruct (pool_fits c); [|intros [= <-]; auto].
  destruct (layers_accepted layer_ok c); [discriminate|intros [= <-]; auto].
Qed.

(** ** Claims on construction *)

(** C4 (counterexample).  The rate -1/2 violates 0 <= rate < 1, and the
    constructor accepts it, so failure is not equivalent to the violation. *)
Lemma negative_rate_accepted :
  ~ (ConvBlock_init accept_all negative_rate_config = Err DropoutAssertion <->
     ~ valid_rate (dropout negative_rate_config)).
Proof.
  intros [_ H].
  assert (ConvBlock_init accept_all negative_rate_config = Err DropoutAssertion) as E.
  { apply H. intros [Hle _]. vm_compute in Hle. discriminate Hle. }
  vm_compute in E. discriminate E.
Qed.

(** C4 (amended).  Construction fails with the configuration error if and
    only if the dropout rate is not below 1: it is at least 1, or it is not
    a number.  With a rate below 1, negative rates included, the validation
    is passed: construction returns a block exactly when the library
    accepts the pool divisor and the layers, and fails with an error of the
    library otherwise.  A rate that is not positive yields no dropout
    layer. *)
Theorem dropout_validation (layer_ok : Layer -> bool) (c : Config) :
  (ConvBlock_init layer_ok c = Err DropoutAssertion <->
   float_lt (dropout c) (Finite 1) = false) /\
  (float_lt (dropout c) (Finite 1) = false <->
   dropout c = NaN \/ float_le (Finite 1) (dropout c) = true) /\
  ((exists b, ConvBlock_init layer_ok c = Ok b) <->
   float_lt (dropout c) (Finite 1) = true /\ pool_fits c = true /\
   layers_accepted layer_ok c = true) /\
  (float_lt (dropout c) (Finite 1) = true ->
   forall e, ConvBlock_init layer_ok c = Err e ->
             e = OverflowError \/ e = LibraryError) /\
  (float_le (dropout c) (Finite 0) = true ->
   ConvBlock_init layer_ok c <> Err DropoutAssertion /\
   forall b, ConvBlock_init layer_ok c = Ok b ->
             odict_get "dropout" (_modules b) = None).
Proof.
  split; [|split; [|split; [|split]]].
  - rewrite init_spec.
    destruct (float_lt (dropout c) (Finite 1)); [|split; reflexivity].
    destruct (pool_fits c), (layers_accepted layer_ok c);
      split; discriminate.
  - destruct (dropout c) as [q| | |]; cbn.
    + rewrite Qlt_bool_false_iff, Qle_bool_iff. split; [auto|].
      intros [H|H]; [discriminate H|exact H].
    + split; auto.
    + split; [discriminate|]. intros [H|H]; discriminate H.
    + split; auto.
  - split.
    + intros [b H]. apply init_inv in H as (H1 & H2 & H3 & _). auto.
    + intros (H1 & H2 & H3). exists (spec_block c).
      apply init_accepts; assumption.
  - intros H1 e. rewrite init_spec, H1.
    destruct (pool_fits c); [|intros [= <-]; auto].
    destruct (layers_accepted layer_ok c); [discriminate|intros [= <-]; auto].
  - intros H. split.
    + rewrite init_spec, (float_nonpos_below_one _ H).
      destruct (pool_fits c), (layers_accepted layer_ok c); discriminate.
    + intros b Hb. apply init_inv in Hb as (_ & _ & _ & ->).
      cbn [spec_block _modules].
      rewrite spec_layers_dropout, (float_nonpos_not_pos _ H). reflexivity.
Qed.

(** The rates the specification names: 1.0 is rejected and 0.999 accepted;
    so is a rate that is not a number rejected. *)
Example dropout_rate_one :
  ConvBlock_init accept_all
    (mkConfig 1 16 (Scalar 3) (Scalar 1) "LeakyReLU" None (Finite 1) false false)
  = Err DropoutAssertion.
Proof. reflexivity. Qed.

Example dropout_rate_below_one :
  exists b,
    ConvBlock_init accept_all
      (mkConfig 1 16 (Scalar 3) (Scalar 1) "LeakyReLU" None (Finite (999 # 1000))
         false false)
    = Ok b.
Proof. eexists. reflexivity. Qed.

Example dropout_rate_nan :
  ConvBlock_init accept_all nan_rate_config = Err DropoutAssertion.
Proof. reflexivity. Qed.

(** A valid rate does not make the construction succeed by itself: a
    library that rejects a negative number of channels raises at rate 0,
    and so does a pool size beyond 64 bits. *)
Example library_rejects_channels :
  ConvBlock_init reject_negative_channels
    (mkConfig (-1) 16 (Scalar 3) (Scalar 1) "LeakyReLU" None (Finite 0) false false)
  = Err LibraryError.
Proof. reflexivity. Qed.

Example pool_size_overflows :
  ConvBlock_init accept_all
    (mkConfig 1 16 (Scalar 3) (Scalar 1) "LeakyReLU" (Some (Scalar (2 ^ 63)))
       (Finite 0) false false)
  = Err OverflowError.
Proof. reflexivity. Qed.



(** C7.  A scalar kernel size or dilation stands for the symmetric pair,
    and the convolution constructor is called with the kernel size, the
    dilation and the padding floor((k - 1) / 2) * d on each axis: a block
    that is returned holds that convolution, a block is returned whenever
    the rate is valid and the library accepts, no subscript of the
    arguments ever fails, and a library that rejects that convolution
    makes the construction fail. *)
Theorem conv_padding (layer_ok : Layer -> bool) (c : Config) (kh kw dh dw : Z) :
  as_pair (kernel_size c) = (kh, kw) -> as_pair (dilation c) = (dh, dw) ->
  let conv := Conv2d (in_channels c) (out_channels c) (Pair kh kw)
                ((kh - 1) / 2 * dh, (kw - 1) / 2 * dw) (Pair dh dw) in
  (forall b, ConvBlock_init layer_ok c = Ok b ->
             odict_get "conv" (_modules b) = Some conv) /\
  (float_lt (dropout c) (Finite 1) = true -> pool_fits c = true ->
   layers_accepted layer_ok c = true ->
   exists b, ConvBlock_init layer_ok c = Ok b /\
             odict_get "conv" (_modules b) = Some conv) /\
  (forall e, ConvBlock_init layer_ok c = Err e ->
             e = DropoutAssertion \/ e = OverflowError \/ e = LibraryError) /\
  (layer_ok conv = false -> forall b, ConvBlock_init layer_ok c <> Ok b) /\
  2 * ((kh - 1) / 2) <= kh - 1 < 2 * ((kh - 1) / 2) + 2 /\
  2 * ((kw - 1) / 2) <= kw - 1 < 2 * ((kw - 1) / 2) + 2.
Proof.
  intros Hk Hd conv.
  assert (Hconv : odict_get "conv" (_modules (spec_block c)) = Some conv).
  { cbn [spec_block _modules]. rewrite spec_layers_conv, Hk, Hd. reflexivity. }
  split; [|split; [|split; [|split]]].
  - intros b H. apply init_inv in H as (_ & _ & _ & ->). exact Hconv.
  - intros H1 H2 H3. exists (spec_block c). split; [|exact Hconv].
    apply init_accepts; assumption.
  - apply init_error.
  - intros Hno b H. apply init_inv in H as (_ & _ & H & _).
    apply layers_accepted_conv in H. rewrite Hk, Hd in H.
    unfold conv in Hno. unfold spec_padding, pair_value in H. cbn [fst snd] in H.
    rewrite H in Hno. discriminate Hno.
  - pose proof (Z.mod_pos_bound (kh - 1) 2 ltac:(lia)).
    pose proof (Z.mod_pos_bound (kw - 1) 2 ltac:(lia)).
    pose proof (Z.div_mod (kh - 1) 2 ltac:(lia)).
    pose proof (Z.div_mod (kw - 1) 2 ltac:(lia)).
    lia.
Qed.

Lemma conv_padding_witness :
  exists b,
    ConvBlock_init accept_all sample_config = Ok b /\
    odict_get "conv" (_modules b) =
      Some (Conv2d 1 16 (Pair 3 3) ((3 - 1) / 2 * 1, (3 - 1) / 2 * 1) (Pair 1 1)).
Proof.
  destruct (conv_padding accept_all sample_config 3 3 1 1 eq_refl eq_refl)
    as (_ & H & _).
  apply H; reflexivity.
Defined.

Section LayerSequence.

Context {Tensor : Type}.
Variable module_call : Device -> Layer -> Tensor -> option Tensor.

Lemma apply_in_order_raised dev (ms : list Layer) (e : error) :
  foldl (fun acc m =>
           x ← acc;
           match module_call dev m x with
           | Some y => Ok y
           | None => Err LibraryError
           end) (Err e) ms = Err e.
Proof. induction ms as [|m ms IH]; [reflexivity|exact IH]. Qed.

(** The loop of the forward pass computes the composition of the kernels. *)
Lemma call_modules_apply dev (ms : list (string * Layer)) (x : Tensor) :
  snd (call_modules module_call dev ms x) = apply_in_order module_call dev ms.*2 x.
Proof.
  revert x. induction ms as [|[name m] ms IH]; intros x; [reflexivity|].
  rewrite call_modules_cons. unfold apply_in_order. cbn.
  destruct (module_call dev m x) as [y|].
  - specialize (IH y). destruct (call_modules module_call dev ms y). exact IH.
  - cbn. symmetry. apply apply_in_order_raised.
Qed.

(** C6.  The registered layers are exactly those whose condition holds, in
    the order dropout, convolution, batch normalisation, activation,
    pooling.  The forward pass applies them in that order to the running
    tensor: what it returns for a bare tensor, and the data of what it
    returns for a padded batch, is the composition of the kernels of the
    sequence; the layers called are an initial segment of the sequence, and
    all of it when a value is returned. *)
Theorem layer_sequence (layer_ok : Layer -> bool) (c : Config) (b : ConvBlock) :
  ConvBlock_init layer_ok c = Ok b ->
  _modules b = spec_layers c /\
  (is_Some (odict_get "dropout" (_modules b)) <->
   float_lt (Finite 0) (dropout c) = true) /\
  is_Some (odict_get "conv" (_modules b)) /\
  (is_Some (odict_get "batchnorm" (_modules b)) <-> batchnorm c = true) /\
  is_Some (odict_get "activation" (_modules b)) /\
  (is_Some (odict_get "pooling" (_modules b)) <->
   exists v ph pw, poolsize c = Some v /\ as_pair v = (ph, pw) /\ pool_rule ph pw) /\
  (forall x : Value Tensor,
     fst (forward module_call b x) `prefix_of` (spec_layers c).*1) /\
  (forall (x out : Value Tensor),
     snd (forward module_call b x) = Ok out ->
     fst (forward module_call b x) = (spec_layers c).*1) /\
  (forall x : Tensor,
     snd (forward module_call b (Bare x)) =
     Bare <$> apply_in_order module_call (param_device b) (spec_layers c).*2 x) /\
  (forall p out : PaddedTensor Tensor,
     snd (forward module_call b (Padded p)) = Ok (Padded out) ->
     apply_in_order module_call (param_device b) (spec_layers c).*2 (data p)
     = Ok (data out)) /\
  (forall (p : PaddedTensor Tensor) (N : nat) (e : error),
     shape (sizes p) = [N; 2%nat] ->
     apply_in_order module_call (param_device b) (spec_layers c).*2 (data p) = Err e ->
     snd (forward module_call b (Padded p)) = Err e).
Proof.
  intros H. apply init_inv in H as (_ & _ & _ & ->). cbn [spec_block _modules].
  split; [reflexivity|].
  rewrite spec_layers_dropout, spec_layers_conv, spec_layers_batchnorm,
    spec_layers_activation, spec_layers_pooling.
  split; [|split; [|split; [|split; [|split; [|split; [|split; [|split; [|split]]]]]]]].
  - destruct (float_lt (Finite 0) (dropout c)); split; eauto.
    + intros [? [=]].
    + discriminate.
  - eauto.
  - destruct (batchnorm c); split; eauto.
    + intros [? [=]].
    + discriminate.
  - eauto.
  - split.
    + destruct (spec_pool c) as [[ph pw]|] eqn:E; [|intros [? [=]]].
      intros _. apply spec_pool_iff in E as (v & Hv & Hp & Hr). eauto 6.
    + intros (v & ph & pw & Hv & Hp & Hr).
      assert (spec_pool c = Some (ph, pw)) as -> by (apply spec_pool_iff; eauto).
      cbn. eauto.
  - intros x. apply (forward_log_prefix module_call (spec_block c) x).
  - intros x out. apply (forward_ok_log module_call (spec_block c) x out).
  - intros x. rewrite forward_bare. cbn [snd].
    rewrite call_modules_apply. reflexivity.
  - intros p out. destruct (classic_shape (sizes p)) as [[N Hs]|Hs].
    + rewrite (forward_padded module_call _ p N Hs). cbn [snd].
      rewrite call_modules_apply.
      destruct (apply_in_order _ _ _ (data p)) as [y|e]; [|discriminate].
      destruct (match _poolsize (spec_block c) with
                | Some ps => tensor_div (sizes p) ps
                | None => Ok (sizes p)
                end) as [xs|e]; [|discriminate].
      intros [= <-]. reflexivity.
    + destruct (forward_rejects module_call (spec_block c) p Hs) as (e & -> & _).
      discriminate.
  - intros p N e Hs He. rewrite (forward_padded module_call _ p N Hs). cbn [snd].
    rewrite call_modules_apply.
    change (_modules (spec_block c)) with (spec_layers c). rewrite He. reflexivity.
Qed.

End LayerSequence.

Lemma layer_sequence_witness :
  exists b,
    ConvBlock_init accept_all sample_config = Ok b /\
    _modules b =
      [("dropout", Dropout (Finite (1 # 2)) false);
       ("conv", Conv2d 1 16 (Pair 3 3) (1, 1) (Pair 1 1));
       ("batchnorm", BatchNorm2d 16);
       ("activation", Activation "LeakyReLU" false);
       ("pooling", MaxPool2d (Some (Pair 2 2)))] /\
    fst (forward tracing_call b (Bare [])) =
      ["dropout"; "conv"; "batchnorm"; "activation"; "pooling"] /\
    snd (forward tracing_call b (Bare [])) =
      Ok (Bare ["Dropout"; "Conv2d"; "BatchNorm2d"; "Activation"; "MaxPool2d"]).
Proof.
  exists (spec_block sample_config).
  destruct (layer_sequence tracing_call accept_all sample_config
              (spec_block sample_config) eq_refl)
    as (Hm & _ & _ & _ & _ & _ & _ & Hlog & Hbare & _).
  split; [reflexivity|]. split; [exact Hm|]. split.
  - apply (Hlog (Bare [])
             (Bare ["Dropout"; "Conv2d"; "BatchNorm2d"; "Activation"; "MaxPool2d"])).
    reflexivity.
  - rewrite Hbare. reflexivity.
Defined.

(** ** Claims on the forward pass *)

Section ForwardClaims.

Context {Tensor : Type}.
Variable module_call : Device -> Layer -> Tensor -> option Tensor.

(** C2.  For a block constructed without a pooling stage no pool divisor
    is retained, and the forward pass returns the sizes matrix of the
    padded batch as it was given. *)
Theorem unpooled_sizes_unchanged (layer_ok : Layer -> bool) (c : Config)
    (b : ConvBlock) (p : PaddedTensor Tensor) (N : nat) (log : list string)
    (y : Tensor) :
  ConvBlock_init layer_ok c = Ok b ->
  odict_get "pooling" (_modules b) = None ->
  shape (sizes p) = [N; 2%nat] ->
  call_modules module_call (param_device b) (_modules b) (data p) = (log, Ok y) ->
  _poolsize b = None /\
  forward module_call b (Padded p) = (log, Ok (Padded (mkPadded y (sizes p)))).
Proof.
  intros H Hpool Hs Hcall. apply init_inv in H as (_ & _ & _ & ->).
  cbn [spec_block _modules] in Hpool. rewrite spec_layers_pooling in Hpool.
  assert (_poolsize (spec_block c) = None) as Hn.
  { cbn [spec_block _poolsize]. destruct (spec_pool c); [discriminate Hpool|reflexivity]. }
  split; [exact Hn|].
  rewrite (forward_padded module_call _ p N Hs), Hcall, Hn. reflexivity.
Qed.

(** C3.  On a padded batch the forward pass fails with a shape-contract
    error if and only if the sizes matrix is not 2-dimensional or has not
    exactly 2 columns; the error is raised before any layer is called.
    Shapes (N, 1) and (N, 3) fail, with the number of columns reported. *)
Theorem sizes_shape_contract (b : ConvBlock) (p : PaddedTensor Tensor) :
  ((exists e, snd (forward module_call b (Padded p)) = Err e /\
              is_shape_contract_error e = true) <->
   ~ (dim (sizes p) = 2%nat /\ shape (sizes p) !! 1%nat = Some 2%nat)) /\
  (forall e, snd (forward module_call b (Padded p)) = Err e ->
             is_shape_contract_error e = true ->
             fst (forward module_call b (Padded p)) = []) /\
  (forall N, shape (sizes p) = [N; 1%nat] ->
             forward module_call b (Padded p) = ([], Err (SizesColumns 1))) /\
  (forall N, shape (sizes p) = [N; 3%nat] ->
             forward module_call b (Padded p) = ([], Err (SizesColumns 3))).
Proof.
  rewrite shape_check. repeat split.
  - intros (e & He & Hc) [N Hs].
    rewrite (forward_accepts module_call b p N e Hs He) in Hc. discriminate Hc.
  - intros Hs. destruct (forward_rejects module_call b p Hs) as (e & Hf & Hc).
    exists e. rewrite Hf. split; [reflexivity|exact Hc].
  - intros e He Hc. destruct (classic_shape (sizes p)) as [[N Hs]|Hs].
    + rewrite (forward_accepts module_call b p N e Hs He) in Hc. discriminate Hc.
    + destruct (forward_rejects module_call b p Hs) as (e' & -> & _). reflexivity.
  - intros N Hs. unfold forward, dim, size. rewrite Hs. reflexivity.
  - intros N Hs. unfold forward, dim, size. rewrite Hs. reflexivity.
Qed.

(** C8.  The forward pass preserves the kind of its input: a value
    returned for a bare tensor is a bare tensor, computed by the layers
    alone, and a value returned for a padded batch is a padded batch; the
    value is returned whenever the layers do not raise and, for a padded
    batch, the sizes matrix is valid and on the device of the pool
    divisor. *)
Theorem forward_type_preserving (b : ConvBlock) :
  block_ok b ->
  (forall (x out : Value Tensor) log,
     forward module_call b x = (log, Ok out) -> same_kind x out) /\
  (forall (t y : Tensor) log,
     call_modules module_call (param_device b) (_modules b) t = (log, Ok y) ->
     forward module_call b (Bare t) = (log, Ok (Bare y))) /\
  (forall (p : PaddedTensor Tensor) (N : nat) (y : Tensor) log,
     shape (sizes p) = [N; 2%nat] ->
     (forall ps, _poolsize b = Some ps -> device (sizes p) = device ps) ->
     call_modules module_call (param_device b) (_modules b) (data p) = (log, Ok y) ->
     exists xs, forward module_call b (Padded p) = (log, Ok (Padded (mkPadded y xs)))).
Proof.
  intros Hb. split; [|split].
  - intros [t|p] out log.
    + rewrite forward_bare.
      destruct (snd (call_modules _ _ _ t)) as [y|e]; [|discriminate].
      intros [= _ <-]. reflexivity.
    + destruct (classic_shape (sizes p)) as [[N Hs]|Hs].
      * rewrite (forward_padded module_call b p N Hs).
        destruct (snd (call_modules _ _ _ (data p))) as [y|e]; [|discriminate].
        cbn. destruct (match _poolsize b with
                       | Some ps => tensor_div (sizes p) ps
                       | None => Ok (sizes p)
                       end) as [xs|e]; [|discriminate].
        intros [= _ <-]. reflexivity.
      * destruct (forward_rejects module_call b p Hs) as (e & -> & _). discriminate.
  - intros t y log Hcall. rewrite forward_bare, Hcall. reflexivity.
  - intros p N y log Hs Hdev Hcall.
    destruct (_poolsize b) as [ps|] eqn:E.
    + destruct (Hb ps E) as (Hsh & ph & pw & Hel & Hph & Hpw).
      destruct (forward_pooled module_call b p N ps ph pw log y
                  E Hsh Hel Hph Hpw (Hdev ps eq_refl) Hs Hcall) as (xs & Hf & _).
      exists xs. exact Hf.
    + exists (sizes p).
      rewrite (forward_padded module_call b p N Hs), Hcall, E. reflexivity.
Qed.

End ForwardClaims.

(** C1 (the code at the failing input).  On the block with 2x2 pooling and
    the sizes rows (7, 9) and (4, 5), the forward pass returns the rows
    (7/2, 9/2) and (2, 5/2): the sizes went through the true division of
    the library, and the first row is not the pair of integer quotients
    (7 // 2, 9 // 2) = (3, 4). *)
Theorem pooled_sizes_fractional :
  exists b xs,
    ConvBlock_init accept_all sample_config = Ok b /\
    odict_get "pooling" (_modules b) = Some (MaxPool2d (Some (Pair 2 2))) /\
    forward sample_call b (Padded sample_batch) =
      (["dropout"; "conv"; "batchnorm"; "activation"; "pooling"],
       Ok (Padded (mkPadded 5%nat xs))) /\
    elems xs = [7 # 2; 9 # 2; 2; 5 # 2]%Q /\
    row xs 0 = Some (7 # 2, 9 # 2)%Q /\
    ~ (7 # 2 == inject_Z (7 / 2))%Q /\ ~ (9 # 2 == inject_Z (9 / 2))%Q.
Proof.
  exists (spec_block sample_config).
  exists (mkTensor [2%nat; 2%nat] [7 # 2; 9 # 2; 2; 5 # 2]%Q Cpu).
  repeat split; try reflexivity; intros H; vm_compute in H; discriminate H.
Qed.

Lemma unpooled_sizes_unchanged_witness :
  _poolsize (spec_block sample_config_nopool) = None /\
  forward sample_call (spec_block sample_config_nopool) (Padded sample_batch) =
    (["dropout"; "conv"; "batchnorm"; "activation"],
     Ok (Padded (mkPadded 4%nat (sizes sample_batch)))).
Proof.
  apply (unpooled_sizes_unchanged sample_call accept_all sample_config_nopool
           (spec_block sample_config_nopool) sample_batch 2); reflexivity.
Defined.

Lemma forward_type_preserving_witness :
  forward sample_call (spec_block sample_config) (Bare 0%nat) =
    (["dropout"; "conv"; "batchnorm"; "activation"; "pooling"], Ok (Bare 5%nat)) /\
  exists xs,
    forward sample_call (spec_block sample_config) (Padded sample_batch) =
      (["dropout"; "conv"; "batchnorm"; "activation"; "pooling"],
       Ok (Padded (mkPadded 5%nat xs))).
Proof.
  destruct (forward_type_preserving sample_call (spec_block sample_config))
    as (_ & Hbare & Hpadded).
  { intros ps H. vm_compute in H. injection H as <-.
    split; [reflexivity|]. exists 2, 2. repeat split; lia. }
  split.
  - apply Hbare. reflexivity.
  - apply (Hpadded sample_batch 2%nat).
    + reflexivity.
    + intros ps H. vm_compute in H. injection H as <-. reflexivity.
    + reflexivity.
Defined.

(** ** Claims on device relocation *)

Section RelocationClaims.

Context {Tensor : Type}.
Variable module_call : Device -> Layer -> Tensor -> option Tensor.

(** C9.  For a block with a retained pool divisor, [cpu()] and, on a host
    with an accelerator, [cuda()] move the layer parameters and the pool
    divisor to the target device and leave the layers and the entries of
    the divisor as they were; the relocated block then serves the padded
    batches whose sizes matrix lives on that device: no device mismatch,
    and a padded batch is returned whenever the layers do not raise. *)
Theorem relocation_moves_divisor (h : Heap) (l : loc) (b : ConvBlock)
    (ps : LongTensor) :
  h !! l = Some b -> _poolsize b = Some ps -> block_ok b ->
  (exists b',
     cpu l h = (Ok l, <[l := b']> h) /\
     param_device b' = Cpu /\ _modules b' = _modules b /\
     _poolsize b' = Some (mkLong (shape ps) (elems ps) Cpu) /\
     serves_device module_call b' Cpu) /\
  (forall i, exists b',
     cuda (Some i) l h = (Ok l, <[l := b']> h) /\
     param_device b' = Cuda i /\ _modules b' = _modules b /\
     _poolsize b' = Some (mkLong (shape ps) (elems ps) (Cuda i)) /\
     serves_device module_call b' (Cuda i)).
Proof.
  intros Hl Hps Hb. split; [|intros i].
  - exists (relocated Cpu b). split; [apply cpu_spec, Hl|].
    split; [reflexivity|]. split; [reflexivity|].
    split; [unfold relocated; rewrite Hps; reflexivity|].
    apply relocated_serves, Hb.
  - exists (relocated (Cuda i) b). split; [apply cuda_spec, Hl|].
    split; [reflexivity|]. split; [reflexivity|].
    split; [unfold relocated; rewrite Hps; reflexivity|].
    apply relocated_serves, Hb.
Qed.

End RelocationClaims.

Lemma relocation_moves_divisor_witness :
  exists b',
    cuda (Some 0%nat) 1%positive {[ 1%positive := spec_block sample_config ]} =
      (Ok 1%positive, <[1%positive := b']> {[ 1%positive := spec_block sample_config ]}) /\
    _poolsize b' = Some (mkLong [2%nat] [2; 2] (Cuda 0)) /\
    serves_device sample_call b' (Cuda 0).
Proof.
  destruct (relocation_moves_divisor sample_call
              {[ 1%positive := spec_block sample_config ]} 1%positive
              (spec_block sample_config) (LongTensor_of_pair 2 2))
    as [_ Hcuda].
  - apply lookup_singleton_eq.
  - reflexivity.
  - intros ps H. vm_compute in H. injection H as <-.
    split; [reflexivity|]. exists 2, 2. repeat split; lia.
  - destruct (Hcuda 0%nat) as (b' & Hc & _ & _ & Hp & Hs).
    exists b'. split; [exact Hc|]. split; [exact Hp|exact Hs].
Defined.

(** C10.  [cpu()] and, on a host with an accelerator, [cuda()] return the
    reference of the block they were called on, which then holds the
    relocated state; whatever [cuda()] returns is that reference. *)
Theorem relocation_returns_self (h : Heap) (l : loc) (b : ConvBlock) :
  h !! l = Some b ->
  (fst (cpu l h) = Ok l /\ snd (cpu l h) !! l = Some (relocated Cpu b)) /\
  (forall i, fst (cuda (Some i) l h) = Ok l /\
             snd (cuda (Some i) l h) !! l = Some (relocated (Cuda i) b)) /\
  (forall cur v, fst (cuda cur l h) = Ok v -> v = l).
Proof.
  intros Hl. split; [|split].
  - rewrite (cpu_spec h l b Hl). split; [reflexivity|apply lookup_insert_eq].
  - intros i. rewrite (cuda_spec i h l b Hl).
    split; [reflexivity|apply lookup_insert_eq].
  - intros cur v. apply cuda_returns.
Qed.

Lemma relocation_returns_self_witness :
  fst (cpu 1%positive {[ 1%positive := spec_block sample_config ]}) = Ok 1%positive /\
  fst (cuda (Some 0%nat) 1%positive {[ 1%positive := spec_block sample_config ]})
    = Ok 1%positive.
Proof.
  destruct (relocation_returns_self {[ 1%positive := spec_block sample_config ]}
              1%positive (spec_block sample_config))
    as ([Hcpu _] & Hcuda & _).
  - apply lookup_singleton_eq.
  - split; [exact Hcpu|]. apply (Hcuda 0%nat).
Defined.

(** ** Further properties: relocation *)

Lemma relocated_twice (d d' : Device) (b : ConvBlock) :
  relocated d (relocated d' b) = relocated d b.
Proof. unfold relocated. cbn. destruct (_poolsize b); reflexivity. Qed.

Lemma relocated_fresh (c : Config) : relocated Cpu (spec_block c) = spec_block c.
Proof.
  unfold relocated, spec_block. cbn. destruct (spec_pool c) as [[ph pw]|]; reflexivity.
Qed.

Lemma cpu_dangling (h : Heap) (l : loc) :
  h !! l = None -> cpu l h = (Err NoSuchObject, h).
Proof.
  intros H. unfold cpu, Module_cpu, load. unfold mbind, HeapM_bind.
  rewrite H. reflexivity.
Qed.

Lemma cuda_dangling (cur : option nat) (h : Heap) (l : loc) :
  h !! l = None -> cuda cur l h = (Err NoSuchObject, h).
Proof.
  intros H. unfold cuda, Module_cuda, load. unfold mbind, HeapM_bind.
  rewrite H. reflexivity.
Qed.

(** X1.  Of two relocations in a row the last one decides: calling [cpu()]
    or [cuda()] on a block that was just relocated gives the result and the
    store that the second call alone gives; in particular each relocation is
    idempotent. *)
Theorem last_relocation_wins (h : Heap) (l : loc) (b : ConvBlock) (i j : nat) :
  h !! l = Some b ->
  cpu l (snd (cpu l h)) = cpu l h /\
  cpu l (snd (cuda (Some i) l h)) = cpu l h /\
  cuda (Some j) l (snd (cpu l h)) = cuda (Some j) l h /\
  cuda (Some j) l (snd (cuda (Some i) l h)) = cuda (Some j) l h.
Proof.
  intros Hl.
  rewrite (cpu_spec h l b Hl), (cuda_spec i h l b Hl), (cuda_spec j h l b Hl).
  cbn [snd].
  rewrite !(cpu_spec _ l _ (lookup_insert_eq _ _ _)).
  rewrite !(cuda_spec j _ l _ (lookup_insert_eq _ _ _)).
  rewrite !insert_insert_eq, !relocated_twice. auto.
Qed.

Lemma last_relocation_wins_witness :
  cpu 1%positive (snd (cuda (Some 0%nat) 1%positive sample_heap))
  = cpu 1%positive sample_heap.
Proof.
  destruct (last_relocation_wins sample_heap 1%positive (spec_block sample_config)
              0%nat 0%nat) as (_ & H & _).
  - apply lookup_singleton_eq.
  - exact H.
Defined.

(** X2.  A block is constructed on the CPU: on a block as the constructor
    returned it, [cpu()] changes nothing in the store, and [cuda()] followed
    by [cpu()] gives back the store as it was. *)
Theorem fresh_block_round_trip (layer_ok : Layer -> bool) (c : Config)
    (b : ConvBlock) (h : Heap) (l : loc) (i : nat) :
  ConvBlock_init layer_ok c = Ok b -> h !! l = Some b ->
  cpu l h = (Ok l, h) /\
  cpu l (snd (cuda (Some i) l h)) = (Ok l, h).
Proof.
  intros H Hl. apply init_inv in H as (_ & _ & _ & ->).
  rewrite (cuda_spec i h l _ Hl). cbn [snd].
  rewrite (cpu_spec h l _ Hl), (cpu_spec _ l _ (lookup_insert_eq _ _ _)).
  rewrite insert_insert_eq, relocated_twice, relocated_fresh.
  rewrite (insert_id h l _ Hl). auto.
Qed.

Lemma fresh_block_round_trip_witness :
  cpu 1%positive sample_heap = (Ok 1%positive, sample_heap) /\
  cpu 1%positive (snd (cuda (Some 0%nat) 1%positive sample_heap))
  = (Ok 1%positive, sample_heap).
Proof.
  apply (fresh_block_round_trip accept_all sample_config (spec_block sample_config)).
  - reflexivity.
  - apply lookup_singleton_eq.
Defined.

(** X3.  A relocation touches the block it is called on and nothing else:
    every other object of the store is as before, and when [cuda()] raises
    because there is no accelerator the whole store, the pool divisor of the
    block included, is as before. *)
Theorem relocation_frame (h : Heap) (l l' : loc) (cur : option nat) :
  l <> l' ->
  snd (cpu l h) !! l' = h !! l' /\
  snd (cuda cur l h) !! l' = h !! l' /\
  snd (cuda None l h) = h /\
  (is_Some (h !! l) -> fst (cuda None l h) = Err CudaUnavailable).
Proof.
  intros Hne. destruct (h !! l) as [b|] eqn:Hl.
  - rewrite (cpu_spec h l b Hl), (cuda_unavailable h l b Hl). cbn [fst snd].
    rewrite lookup_insert_ne by exact Hne. split; [reflexivity|].
    split; [|auto]. destruct cur as [i|].
    + rewrite (cuda_spec i h l b Hl). cbn [snd]. apply lookup_insert_ne, Hne.
    + rewrite (cuda_unavailable h l b Hl). reflexivity.
  - rewrite (cpu_dangling h l Hl), !(cuda_dangling _ h l Hl). cbn [fst snd].
    repeat split. intros [? [=]].
Qed.

Lemma relocation_frame_witness :
  snd (cuda (Some 0%nat) 1%positive
         (<[2%positive := spec_block sample_config_nopool]> sample_heap))
    !! 2%positive
  = (<[2%positive := spec_block sample_config_nopool]> sample_heap) !! 2%positive.
Proof.
  destruct (relocation_frame
              (<[2%positive := spec_block sample_config_nopool]> sample_heap)
              1%positive 2%positive (Some 0%nat)) as (_ & H & _).
  - discriminate.
  - exact H.
Defined.

(** ** Further properties: the forward pass *)

Section ForwardFacts.

Context {Tensor : Type}.
Variable module_call : Device -> Layer -> Tensor -> option Tensor.

Lemma call_modules_app dev pre post (x x' : Tensor) log :
  call_modules module_call dev pre x = (log, Ok x') ->
  call_modules module_call dev (pre ++ post)%list x =
  ((log ++ fst (call_modules module_call dev post x'))%list,
   snd (call_modules module_call dev post x')).
Proof.
  revert x log. induction pre as [|[name m] pre IH]; intros x log.
  - cbn. intros [= <- <-]. destruct (call_modules module_call dev post x).
    reflexivity.
  - rewrite <- app_comm_cons, !call_modules_cons.
    destruct (module_call dev m x) as [z|]; [|discriminate].
    destruct (call_modules module_call dev pre z) as [log' r] eqn:E.
    intros [= <- ->]. rewrite (IH z log' E). reflexivity.
Qed.


(** X4.  A pool divisor on another device than the sizes matrix makes the
    forward pass fail, after all layers were called: a block as constructed
    (divisor on the CPU) fails on a batch whose sizes are not on the CPU, and
    a block moved by [cuda()] fails on a batch whose sizes are on the CPU. *)
Theorem stale_divisor_mismatch (layer_ok : Layer -> bool) (c : Config)
    (b b' : ConvBlock) (h : Heap) (l : loc) (i : nat) (p : PaddedTensor Tensor)
    (N : nat) :
  ConvBlock_init layer_ok c = Ok b -> is_Some (_poolsize b) ->
  h !! l = Some b -> snd (cuda (Some i) l h) !! l = Some b' ->
  shape (sizes p) = [N; 2%nat] ->
  (forall log y,
     device (sizes p) <> Cpu ->
     call_modules module_call (param_device b) (_modules b) (data p) = (log, Ok y) ->
     forward module_call b (Padded p) = ((_modules b).*1, Err DeviceMismatch)) /\
  (forall log y,
     device (sizes p) = Cpu ->
     call_modules module_call (param_device b') (_modules b') (data p) = (log, Ok y) ->
     forward module_call b' (Padded p) = ((_modules b).*1, Err DeviceMismatch)).
Proof.
  intros H [ps Hps] Hl Hl' Hs. apply init_inv in H as (_ & _ & _ & ->).
  rewrite (cuda_spec i h l _ Hl) in Hl'. cbn [snd] in Hl'.
  rewrite lookup_insert_eq in Hl'. injection Hl' as <-.
  assert (device ps = Cpu) as Hd.
  { cbn [spec_block _poolsize] in Hps.
    destruct (spec_pool c) as [[ph pw]|]; [|discriminate Hps].
    cbn in Hps. injection Hps as <-. reflexivity. }
  split; intros log y Hdev Hcall.
  - rewrite <- (call_modules_all module_call _ _ _ _ _ Hcall).
    apply (forward_device_mismatch module_call _ p N ps log y Hps); try assumption.
    rewrite Hd. exact Hdev.
  - change (_modules (spec_block c)) with (_modules (relocated (Cuda i) (spec_block c))).
    rewrite <- (call_modules_all module_call _ _ _ _ _ Hcall).
    apply (forward_device_mismatch module_call _ p N
             (mkLong (shape ps) (elems ps) (Cuda i)) log y); try assumption.
    + unfold relocated. rewrite Hps. reflexivity.
    + rewrite Hdev. discriminate.
Qed.

(** X5.  Relocation does not change what the block computes on sizes: after
    [cuda()], the forward pass on a batch whose sizes matrix is on the
    accelerator returns sizes on the accelerator, with the shape and the
    very entries that the block as constructed returns for the same sizes
    matrix on the CPU. *)
Theorem relocated_block_divides_sizes (layer_ok : Layer -> bool) (c : Config)
    (b b' : ConvBlock) (h0 : Heap) (l : loc) (i : nat)
    (p p0 : PaddedTensor Tensor) (N : nat) (log log0 : list string)
    (y y0 : Tensor) :
  ConvBlock_init layer_ok c = Ok b ->
  h0 !! l = Some b -> snd (cuda (Some i) l h0) !! l = Some b' ->
  shape (sizes p) = [N; 2%nat] -> device (sizes p) = Cuda i ->
  sizes p0 = mkTensor (shape (sizes p)) (elems (sizes p)) Cpu ->
  call_modules module_call (param_device b') (_modules b') (data p) = (log, Ok y) ->
  call_modules module_call (param_device b) (_modules b) (data p0) = (log0, Ok y0) ->
  exists xs xs0,
    forward module_call b' (Padded p) = (log, Ok (Padded (mkPadded y xs))) /\
    forward module_call b (Padded p0) = (log0, Ok (Padded (mkPadded y0 xs0))) /\
    device xs = Cuda i /\ shape xs = shape xs0 /\ elems xs = elems xs0.
Proof.
  intros H Hl Hl' Hs Hdev Hp0 Hcall Hcall0.
  pose proof H as Hinit. apply init_inv in H as (_ & _ & _ & ->).
  rewrite (cuda_spec i h0 l _ Hl) in Hl'. cbn [snd] in Hl'.
  rewrite lookup_insert_eq in Hl'. injection Hl' as <-.
  assert (Hs0 : shape (sizes p0) = [N; 2%nat]) by (rewrite Hp0; exact Hs).
  rewrite (forward_padded module_call _ p N Hs), Hcall.
  rewrite (forward_padded module_call _ p0 N Hs0), Hcall0.
  unfold relocated. cbn [spec_block _poolsize].
  destruct (spec_pool c) as [[ph pw]|] eqn:E.
  - apply spec_pool_iff in E as (v & _ & _ & Hph & Hpw & _).
    cbn [fmap option_fmap option_map uncurry].
    rewrite (div_ok (sizes p) _ N ph pw)
      by (try assumption; try reflexivity; rewrite Hdev; reflexivity).
    rewrite (div_ok (sizes p0) _ N ph pw)
      by (try assumption; try reflexivity; rewrite Hp0; reflexivity).
    eexists _, _. split; [reflexivity|]. split; [reflexivity|].
    rewrite Hp0. cbn [device shape elems]. auto.
  - exists (sizes p), (sizes p0). split; [reflexivity|]. split; [reflexivity|].
    rewrite Hp0. cbn [device shape elems]. auto.
Qed.


(** X8.  Which assertion fails: a sizes tensor that is not 2-dimensional
    fails the first assertion whatever its last dimension is, and a matrix
    with k columns, k other than 2, fails the second one, which reports k;
    no layer is called in either case. *)
Theorem shape_error_precedence (b : ConvBlock) (p : PaddedTensor Tensor) :
  (dim (sizes p) <> 2%nat ->
   forward module_call b (Padded p) = ([], Err SizesNotMatrix)) /\
  (forall N k, shape (sizes p) = [N; k] -> k <> 2%nat ->
   forward module_call b (Padded p) = ([], Err (SizesColumns k))).
Proof.
  split.
  - intros Hd. unfold forward. apply Nat.eqb_neq in Hd. rewrite Hd. reflexivity.
  - intros N k Hs Hk. unfold forward, dim, size. rewrite Hs. cbn.
    apply Nat.eqb_neq in Hk. rewrite Hk. reflexivity.
Qed.

(** X9.  The failures of the forward pass.  On a block whose divisor, if any,
    has two positive entries, the forward pass raises nothing but: one of
    its two assertions, the error of a layer, or a device mismatch in the
    division of the sizes; on a bare tensor only the error of a layer.  The
    subscript [size(1)] and the division never fail on their own. *)
Theorem forward_error_kinds (b : ConvBlock) (x : Value Tensor)
    (log : list string) (e : error) :
  block_ok b ->
  forward module_call b x = (log, Err e) ->
  (is_padded x = false -> e = LibraryError) /\
  (e = SizesNotMatrix \/ (exists k, e = SizesColumns k /\ k <> 2%nat) \/
   e = LibraryError \/ e = DeviceMismatch).
Proof.
  intros Hb H. destruct x as [t|p].
  - rewrite forward_bare in H.
    destruct (call_modules _ _ _ t) as [log' [y|e']] eqn:E; [discriminate H|].
    cbn in H. injection H as _ <-.
    assert (e' = LibraryError) as ->.
    { apply (call_modules_error module_call (param_device b) (_modules b) t).
      rewrite E. reflexivity. }
    auto.
  - split; [discriminate|].
    destruct (shape (sizes p)) as [|N [|k [|]]] eqn:Hs;
      try (unfold forward, dim in H; rewrite Hs in H; cbn in H;
           injection H as _ <-; auto; fail).
    destruct (Nat.eq_dec k 2%nat) as [->|Hk].
    + rewrite (forward_padded module_call b p N Hs) in H.
      destruct (call_modules _ _ _ (data p)) as [log' [y|e']] eqn:E.
      * cbn in H. destruct (_poolsize b) as [ps|] eqn:Hps; [|discriminate H].
        destruct (Hb ps Hps) as (Hsh & ph & pw & Hel & Hph & Hpw).
        destruct (decide (device (sizes p) = device ps)) as [Hdev|Hdev].
        -- rewrite (div_ok (sizes p) ps N ph pw Hdev Hs Hsh Hel Hph Hpw) in H.
           discriminate H.
        -- rewrite (div_mismatch _ _ Hdev) in H. cbn in H.
           injection H as _ <-. auto.
      * cbn in H. injection H as _ <-.
        assert (e' = LibraryError) as ->.
        { apply (call_modules_error module_call (param_device b) (_modules b) (data p)).
          rewrite E. reflexivity. }
        auto.
    + unfold forward, dim, size in H. rewrite Hs in H. cbn in H.
      apply Nat.eqb_neq in Hk. rewrite Hk in H. cbn in H.
      injection H as _ <-. right. left. exists k. apply Nat.eqb_neq in Hk. auto.
Qed.

(** X10.  A layer that raises stops the pass: the layers before it were
    called, in order, it was called, no later layer is, and the forward pass
    raises the error of the layer, for a bare tensor and for a padded batch
    with a valid sizes matrix alike. *)
Theorem layer_failure_stops_pass (b : ConvBlock) (pre post : list (string * Layer))
    (name : string) (m : Layer) (x x' : Tensor) :
  _modules b = (pre ++ (name, m) :: post)%list ->
  call_modules module_call (param_device b) pre x = (pre.*1, Ok x') ->
  module_call (param_device b) m x' = None ->
  forward module_call b (Bare x) = ((pre.*1 ++ [name])%list, Err LibraryError) /\
  forall (p : PaddedTensor Tensor) (N : nat),
    data p = x -> shape (sizes p) = [N; 2%nat] ->
    forward module_call b (Padded p) = ((pre.*1 ++ [name])%list, Err LibraryError).
Proof.
  intros Hm Hpre Hfail.
  assert (call_modules module_call (param_device b) (_modules b) x
          = ((pre.*1 ++ [name])%list, Err LibraryError)) as Hcall.
  { rewrite Hm, (call_modules_app _ pre _ x x' _ Hpre), call_modules_cons, Hfail.
    reflexivity. }
  split.
  - rewrite forward_bare, Hcall. reflexivity.
  - intros p N <- Hs. rewrite (forward_padded module_call b p N Hs), Hcall.
    reflexivity.
Qed.

End ForwardFacts.

Lemma stale_divisor_mismatch_witness :
  forward sample_call (spec_block sample_config) (Padded sample_batch_cuda) =
    (["dropout"; "conv"; "batchnorm"; "activation"; "pooling"], Err DeviceMismatch).
Proof.
  destruct (stale_divisor_mismatch sample_call accept_all sample_config
              (spec_block sample_config) (relocated (Cuda 0) (spec_block sample_config))
              sample_heap 1%positive 0%nat sample_batch_cuda 2%nat) as [H _].
  - reflexivity.
  - eexists. reflexivity.
  - apply lookup_singleton_eq.
  - rewrite (cuda_spec 0 sample_heap 1%positive (spec_block sample_config)
               (lookup_singleton_eq _ _)).
    apply lookup_insert_eq.
  - reflexivity.
  - apply (H ["dropout"; "conv"; "batchnorm"; "activation"; "pooling"] 5%nat).
    + discriminate.
    + reflexivity.
Defined.

Lemma relocated_block_divides_sizes_witness :
  exists xs xs0,
    forward sample_call (relocated (Cuda 0) (spec_block sample_config))
      (Padded sample_batch_cuda) =
      (["dropout"; "conv"; "batchnorm"; "activation"; "pooling"],
       Ok (Padded (mkPadded 5%nat xs))) /\
    forward sample_call (spec_block sample_config) (Padded sample_batch) =
      (["dropout"; "conv"; "batchnorm"; "activation"; "pooling"],
       Ok (Padded (mkPadded 5%nat xs0))) /\
    device xs = Cuda 0 /\ shape xs = shape xs0 /\ elems xs = elems xs0.
Proof.
  apply (relocated_block_divides_sizes sample_call accept_all sample_config
           (spec_block sample_config) (relocated (Cuda 0) (spec_block sample_config))
           sample_heap 1%positive 0%nat sample_batch_cuda sample_batch 2%nat);
    reflexivity.
Defined.


Lemma forward_error_kinds_witness :
  (is_padded (Padded sample_batch_3cols) = false -> SizesColumns 3 = LibraryError) /\
  (SizesColumns 3 = SizesNotMatrix \/
   (exists k, SizesColumns 3 = SizesColumns k /\ k <> 2%nat) \/
   SizesColumns 3 = LibraryError \/ SizesColumns 3 = DeviceMismatch).
Proof.
  apply (forward_error_kinds sample_call (spec_block sample_config)
           (Padded sample_batch_3cols) []).
  - intros ps E. vm_compute in E. injection E as <-.
    split; [reflexivity|]. exists 2, 2. repeat split; lia.
  - reflexivity.
Defined.

Lemma layer_failure_stops_pass_witness :
  forward failing_pool_call (spec_block sample_config) (Bare 0%nat) =
    (["dropout"; "conv"; "batchnorm"; "activation"; "pooling"], Err LibraryError).
Proof.
  destruct (layer_failure_stops_pass failing_pool_call (spec_block sample_config)
              [("dropout", Dropout (Finite (1 # 2)) false);
               ("conv", Conv2d 1 16 (Pair 3 3) (1, 1) (Pair 1 1));
               ("batchnorm", BatchNorm2d 16);
               ("activation", Activation "LeakyReLU" false)]
              [] "pooling" (MaxPool2d (Some (Pair 2 2))) 0%nat 4%nat) as [H _].
  - reflexivity.
  - reflexivity.
  - reflexivity.
  - exact H.
Defined.

(** ** Further properties: construction *)

Lemma spec_pool_symmetric (c : Config) :
  spec_pool (symmetric_config c) = spec_pool c.
Proof.
  destruct c as [cin cout k d act ps rate bn ip].
  unfold spec_pool, symmetric_config. cbn.
  destruct ps as [[?|? ?]|]; reflexivity.
Qed.

Lemma spec_layers_symmetric (c : Config) :
  spec_layers (symmetric_config c) = spec_layers c.
Proof.
  unfold spec_layers. rewrite spec_pool_symmetric.
  destruct c as [cin cout k d act ps rate bn ip]. cbn.
  destruct k, d; reflexivity.
Qed.

Lemma spec_layers_without_pool (c : Config) :
  spec_pool c = None -> spec_layers (without_pool c) = spec_layers c.
Proof. intros H. unfold spec_layers. rewrite H. reflexivity. Qed.

(** X11.  A scalar kernel size, dilation or pool size builds the very block
    that the symmetric pair builds, and fails exactly when the pair fails. *)
Theorem scalar_arguments_broadcast (layer_ok : Layer -> bool) (c : Config) :
  ConvBlock_init layer_ok (symmetric_config c) = ConvBlock_init layer_ok c.
Proof.
  rewrite !init_spec. unfold pool_fits, layers_accepted, spec_block.
  rewrite spec_layers_symmetric, spec_pool_symmetric. reflexivity.
Qed.

(** X12.  A pool size that does not pass the suppression rule, such as 0,
    (1, 1) or a pair with a negative entry, builds the very block that the
    configuration without a pool size builds. *)
Theorem degenerate_pool_is_no_pool (layer_ok : Layer -> bool) (c : Config)
    (v : IntOrPair) (ph pw : Z) :
  poolsize c = Some v -> as_pair v = (ph, pw) -> ~ pool_rule ph pw ->
  ConvBlock_init layer_ok c = ConvBlock_init layer_ok (without_pool c).
Proof.
  intros Hv Hp Hr.
  assert (spec_pool c = None) as Hn.
  { apply spec_pool_none. intros v' ph' pw' Hv' Hp'.
    rewrite Hv in Hv'. injection Hv' as <-. rewrite Hp in Hp'.
    injection Hp' as <- <-. exact Hr. }
  rewrite !init_spec. unfold pool_fits, layers_accepted, spec_block.
  rewrite (spec_layers_without_pool c Hn), Hn. reflexivity.
Qed.

Lemma degenerate_pool_is_no_pool_witness :
  ConvBlock_init accept_all sample_config_nopool
  = ConvBlock_init accept_all (without_pool sample_config_nopool).
Proof.
  apply (degenerate_pool_is_no_pool accept_all sample_config_nopool (Pair 1 1) 1 1);
    try reflexivity.
  unfold pool_rule. lia.
Defined.

(** X13.  The padding against the kernel: for an odd kernel size k and
    dilation d, twice the padding of the convolution is d * (k - 1), the
    extent the dilated kernel takes off an axis; for an even kernel size it
    is d * (k - 2), one dilation step short. *)
Theorem padding_against_kernel (layer_ok : Layer -> bool) (c : Config)
    (b : ConvBlock) (kh kw dh dw : Z) :
  ConvBlock_init layer_ok c = Ok b ->
  as_pair (kernel_size c) = (kh, kw) -> as_pair (dilation c) = (dh, dw) ->
  exists pad_h pad_w,
    odict_get "conv" (_modules b) =
      Some (Conv2d (in_channels c) (out_channels c) (Pair kh kw)
              (pad_h, pad_w) (Pair dh dw)) /\
    (Z.odd kh = true -> 2 * pad_h = dh * (kh - 1)) /\
    (Z.even kh = true -> 2 * pad_h = dh * (kh - 2)) /\
    (Z.odd kw = true -> 2 * pad_w = dw * (kw - 1)) /\
    (Z.even kw = true -> 2 * pad_w = dw * (kw - 2)).
Proof.
  intros H Hk Hd. apply init_inv in H as (_ & _ & _ & ->).
  cbn [spec_block _modules]. rewrite spec_layers_conv, Hk, Hd.
  unfold spec_padding, pair_value. cbn [fst snd].
  eexists _, _. split; [reflexivity|].
  assert (Hodd : forall k, Z.odd k = true -> 2 * ((k - 1) / 2) = k - 1).
  { intros k Ho. apply Z.odd_spec in Ho as [m ->].
    replace (2 * m + 1 - 1) with (m * 2) by lia. rewrite Z.div_mul by lia. lia. }
  assert (Heven : forall k, Z.even k = true -> 2 * ((k - 1) / 2) = k - 2).
  { intros k He. apply Z.even_spec in He as [m ->].
    replace (2 * m - 1) with (1 + (m - 1) * 2) by lia.
    rewrite Z.div_add by lia. change (1 / 2) with 0. lia. }
  repeat split; intros Hp.
  - rewrite Z.mul_assoc, (Hodd kh Hp). ring.
  - rewrite Z.mul_assoc, (Heven kh Hp). ring.
  - rewrite Z.mul_assoc, (Hodd kw Hp). ring.
  - rewrite Z.mul_assoc, (Heven kw Hp). ring.
Qed.

Lemma padding_against_kernel_witness :
  exists pad_h pad_w,
    odict_get "conv" (_modules (spec_block sample_config)) =
      Some (Conv2d 1 16 (Pair 3 3) (pad_h, pad_w) (Pair 1 1)) /\
    (Z.odd 3 = true -> 2 * pad_h = 1 * (3 - 1)) /\
    (Z.even 3 = true -> 2 * pad_h = 1 * (3 - 2)) /\
    (Z.odd 3 = true -> 2 * pad_w = 1 * (3 - 1)) /\
    (Z.even 3 = true -> 2 * pad_w = 1 * (3 - 2)).
Proof.
  apply (padding_against_kernel accept_all sample_config (spec_block sample_config)
           3 3 1 1);
    reflexivity.
Defined.

Lemma relocated_coherent (d : Device) (b : ConvBlock) :
  coherent b -> coherent (relocated d b).
Proof.
  unfold coherent, relocated. cbn. destruct (_poolsize b) as [ps|]; cbn; [|auto].
  intros (_ & ph & pw & Hsh & Hel & Hr & Hp). split; [reflexivity|].
  exists ph, pw. auto.
Qed.

(** X14.  The pool divisor and the pooling layer stay in agreement.  A block
    as constructed has a divisor exactly when it has a pooling layer, the
    divisor holds the kernel size of that layer and lives on the device of
    the parameters; [cpu()] and [cuda()] keep all of this. *)
Theorem divisor_follows_pooling (layer_ok : Layer -> bool) (c : Config)
    (b : ConvBlock) :
  ConvBlock_init layer_ok c = Ok b ->
  coherent b /\
  forall (h : Heap) (l : loc) (b0 b' : ConvBlock) (i : nat),
    coherent b0 -> h !! l = Some b0 ->
    (snd (cpu l h) !! l = Some b' -> coherent b') /\
    (snd (cuda (Some i) l h) !! l = Some b' -> coherent b').
Proof.
  intros H. apply init_inv in H as (_ & _ & _ & ->). split.
  - unfold coherent. cbn [spec_block _poolsize _modules param_device].
    rewrite spec_layers_pooling.
    destruct (spec_pool c) as [[ph pw]|] eqn:E; cbn; [|reflexivity].
    split; [reflexivity|]. exists ph, pw.
    apply spec_pool_iff in E as (v & _ & _ & Hr). auto.
  - intros h l b0 b' i Hc Hl.
    rewrite (cpu_spec h l b0 Hl), (cuda_spec i h l b0 Hl). cbn [snd].
    rewrite !lookup_insert_eq.
    split; intros [= <-]; apply relocated_coherent, Hc.
Qed.

Lemma divisor_follows_pooling_witness :
  coherent (spec_block sample_config).
Proof.
  apply (divisor_follows_pooling accept_all sample_config (spec_block sample_config)).
  reflexivity.
Defined.
